(** * Contacts REST service: a shallow embedding of [routes/contacts.js]

    The service stores contact documents in the [contacts] collection of a
    document database and hands out integer ids from a counter document kept
    in the [counters] collection.  Five handlers are mounted on the router:
    [GET /], [GET /:id], [POST /], [PUT /:id] and [DELETE /:id].

    Conventions of the embedding.
    - A JavaScript object or a stored document is a finite map from field
      names to values ([gmap string value]); a collection is the list of its
      documents in insertion order.
    - Numbers are mathematical integers.  The source works with IEEE doubles,
      which are exact on every integer of magnitude up to 2^53; fractions
      and the rounding of longer digit strings are outside the model.
    - Strings are sequences of code units below 256.
    - [undefined] is the absence of a value ([None]).
    - A handler is a computation over the [World] (the driver's connection,
      the stored collections, and the outcome of driver calls still to come)
      that either yields a result or throws an error message.  Requests are
      served one at a time.
    - The database driver is modelled at the level of whole top-level
      fields: a filter compares one field with a scalar, [$set] replaces or
      adds fields, [$inc] adds to a numeric field.  Field names are opaque
      (no path syntax inside a name).
    - Around the router, [app] is the application of server.js (the body
      parser before the router, Express's final handler for the errors of
      either) and [start] its start-up. *)

From stdpp Require Import gmap strings list fin_maps.
From Stdlib Require Import ZArith Ascii String Sorted.

Open Scope string_scope.
Open Scope Z_scope.

Set Warnings "-register-all".

(** ** Values *)

Inductive value : Type :=
  | VNull
  | VBool (b : bool)
  | VNum (n : Z)
  | VStr (s : string)
  | VOid (o : N)                       (* a driver-generated ObjectId *)
  | VArr (items : list value)
  | VObj (fields : gmap string value).

Abbreviation doc := (gmap string value).

(** A value that may be [undefined]. *)
Abbreviation jsval := (option value).

Module JS.

(** ToBoolean, as applied by the [!x] tests of the source. *)
Definition truthy (x : jsval) : bool :=
  match x with
  | None => false
  | Some VNull => false
  | Some (VBool b) => b
  | Some (VNum n) => negb (n =? 0)
  | Some (VStr s) => negb (String.eqb s "")
  | Some (VOid _) => true
  | Some (VArr _) => true
  | Some (VObj _) => true
  end.

(** The result of [parseInt]: a number or NaN.  The test [isNaN(idNum)] of
    the handlers is the case distinction on this type. *)
Inductive number : Type :=
  | NaN
  | Num (n : Z).

Definition code (c : ascii) : Z := Z.of_N (N_of_ascii c).

(** White space and line terminators among the code units below 256:
    TAB, LF, VT, FF, CR, SP and NBSP. *)
Definition is_space (c : ascii) : bool :=
  let k := code c in
  ((9 <=? k) && (k <=? 13)) || (k =? 32) || (k =? 160).

Fixpoint trim_start (s : string) : string :=
  match s with
  | String c r => if is_space c then trim_start r else s
  | EmptyString => s
  end.

(** The value of [c] as a digit: 0-9, then a-z or A-Z for 10-35. *)
Definition digit_value (c : ascii) : option Z :=
  let k := code c in
  if (48 <=? k) && (k <=? 57) then Some (k - 48)
  else if (97 <=? k) && (k <=? 122) then Some (k - 87)
  else if (65 <=? k) && (k <=? 90) then Some (k - 55)
  else None.

Definition radix_digit (R : Z) (c : ascii) : option Z :=
  match digit_value c with
  | Some d => if d <? R then Some d else None
  | None => None
  end.

(** The digits of the longest prefix of [s] written in radix [R]. *)
Fixpoint leading_digits (R : Z) (s : string) : list Z :=
  match s with
  | String c r =>
      match radix_digit R c with
      | Some d => d :: leading_digits R r
      | None => []
      end
  | EmptyString => []
  end.

Definition digits_value (R : Z) (ds : list Z) : Z :=
  fold_left (fun acc d => acc * R + d) ds 0.

Definition strip_sign (s : string) : Z * string :=
  match s with
  | String "-" r => (-1, r)
  | String "+" r => (1, r)
  | _ => (1, s)
  end.

Definition strip_prefix (s : string) : Z * string :=
  match s with
  | String "0" (String "x" r) => (16, r)
  | String "0" (String "X" r) => (16, r)
  | _ => (10, s)
  end.

(** [parseInt(s)] with no radix argument. *)
Definition parseInt (s : string) : number :=
  let '(sign, s1) := strip_sign (trim_start s) in
  let '(R, s2) := strip_prefix s1 in
  match leading_digits R s2 with
  | [] => NaN
  | ds => Num (sign * digits_value R ds)
  end.

Definition digit_char (d : Z) : ascii := ascii_of_N (Z.to_N (48 + d)).

Fixpoint digits_of (fuel : nat) (n : Z) (acc : string) : string :=
  match fuel with
  | O => acc
  | S f =>
      let acc' := String (digit_char (n mod 10)) acc in
      if n <? 10 then acc' else digits_of f (n / 10) acc'
  end.

(** The decimal representation of an integer, as [String(n)] gives it. *)
Definition decimal (n : Z) : string :=
  if n <? 0 then String "-" (digits_of (S (Z.to_nat (- n))) (- n) "")
  else digits_of (S (Z.to_nat n)) n "".

(** A decimal digit character, and a string made of them only. *)
Definition dec (c : ascii) : bool := (48 <=? code c) && (code c <=? 57).

Fixpoint all_dec (s : string) : bool :=
  match s with
  | String c r => dec c && all_dec r
  | EmptyString => true
  end.

(** Reading the own property [k] of [v], for a name [k] that is neither
    an array index nor [length]: only objects have such properties. *)
Definition get (v : value) (k : string) : jsval :=
  match v with
  | VObj m => m !! k
  | _ => None
  end.

Definition chars (s : string) : list value :=
  (fun c => VStr (String c "")) <$> list_ascii_of_string s.

Definition indexed (l : list value) : doc :=
  list_to_map (imap (fun i v => (decimal (Z.of_nat i), v)) l).

(** [{ ...v }]: the own enumerable properties of [v]. *)
Definition spread (v : jsval) : doc :=
  match v with
  | Some (VObj m) => m
  | Some (VArr l) => indexed l
  | Some (VStr s) => indexed (chars s)
  | _ => ∅
  end.

(** An object literal [{k1: v1, ...}]; a property whose value is
    [undefined] does not survive serialisation and is left out. *)
Definition object (props : list (string * jsval)) : doc :=
  list_to_map (omap (fun p => (fun v => (p.1, v)) <$> p.2) props).

End JS.

(** ** The world: connection, collections, driver outcomes *)

Abbreviation collection := (list doc).

(** The database: its collections by name. *)
Abbreviation Database := (gmap string (list (gmap string value))).

Record World : Type := mkWorld {
  db : option Database;          (* [db] of db/connect.js; [None] before connecting *)
  faults : list (option string); (* outcome of the driver calls to come:
                                    [Some msg] makes the next call reject *)
  next_oid : N                   (* the next ObjectId the driver generates *)
}.

Definition coll (d : Database) (name : string) : collection :=
  default [] (d !! name).

Definition stored (w : World) (name : string) : collection :=
  match db w with
  | Some d => coll d name
  | None => []
  end.

(** ** Computations that may throw *)

Inductive outcome (A : Type) : Type :=
  | Ok (a : A)
  | Throw (msg : string).
Arguments Ok {A} a.
Arguments Throw {A} msg.

Definition M (A : Type) : Type := World -> outcome A * World.

Definition ret {A} (a : A) : M A := fun w => (Ok a, w).

Definition throw {A} (msg : string) : M A := fun w => (Throw msg, w).

Definition bind {A B} (m : M A) (k : A -> M B) : M B :=
  fun w =>
    match m w with
    | (Ok a, w') => k a w'
    | (Throw msg, w') => (Throw msg, w')
    end.

Notation "'let!' x ':=' m 'in' k" := (bind m (fun x => k))
  (at level 10, x pattern, m at level 100, k at level 200,
   format "'[v' 'let!'  x  ':='  m  'in' '/' k ']'").
Notation "'do!' m 'in' k" := (bind m (fun _ => k))
  (at level 10, m at level 100, k at level 200,
   format "'[v' 'do!'  m  'in' '/' k ']'").

(** ** The database driver *)

Module Mongo.

(** The two shapes of filter the service uses: [{k: n}] with a number and
    [{k: s}] with a string. *)
Inductive filter : Type :=
  | NumIs (k : string) (n : Z)
  | StrIs (k : string) (s : string).

Definition matches (f : filter) (d : doc) : bool :=
  match f with
  | NumIs k n =>
      match d !! k with Some (VNum m) => m =? n | _ => false end
  | StrIs k s =>
      match d !! k with Some (VStr t) => String.eqb t s | _ => false end
  end.

(** The document an upsert starts from: the equality fields of the filter. *)
Definition seed (f : filter) : doc :=
  match f with
  | NumIs k n => {[ k := VNum n ]}
  | StrIs k s => {[ k := VStr s ]}
  end.

(** [{$set: u}] on a document: every field of [u] replaces or is added. *)
Definition set_fields (u : doc) (d : doc) : doc := u ∪ d.

(** [{$inc: {k: by}}] on a document. *)
Definition inc_field (k : string) (by_ : Z) (d : doc) : outcome doc :=
  match d !! k with
  | None => Ok (<[k := VNum by_]> d)
  | Some (VNum m) => Ok (<[k := VNum (m + by_)]> d)
  | Some _ => Throw "Cannot apply $inc to a value of non-numeric type"
  end.

(** Rewrite the first document that matches. *)
Fixpoint update_first (f : filter) (g : doc -> doc) (c : collection)
  : collection :=
  match c with
  | [] => []
  | d :: r => if matches f d then g d :: r else d :: update_first f g r
  end.

(** Drop the first document that matches; also the number dropped. *)
Fixpoint delete_first (f : filter) (c : collection) : collection * Z :=
  match c with
  | [] => ([], 0)
  | d :: r =>
      if matches f d then (r, 1)
      else let '(r', n) := delete_first f r in (d :: r', n)
  end.

(** One call to the driver: it rejects when the database is not there or
    when the next scripted outcome is a fault, and otherwise runs [op] on
    the database. *)
Definition call {A} (op : Database -> N -> outcome A * Database * N)
  : M A :=
  fun w =>
    match faults w with
    | Some msg :: fs => (Throw msg, mkWorld (db w) fs (next_oid w))
    | fs0 =>
        let fs := tail fs0 in
        match db w with
        | None => (Throw "Database not connected", mkWorld None fs (next_oid w))
        | Some d =>
            let '(r, d', o') := op d (next_oid w) in
            (r, mkWorld (Some d') fs o')
        end
    end.

(** [collection(name).find().toArray()] *)
Definition find_toArray (name : string) : M collection :=
  call (fun d o => (Ok (coll d name), d, o)).

(** [collection(name).findOne(f)] *)
Definition findOne (name : string) (f : filter) : M (option doc) :=
  call (fun d o => (Ok (List.find (matches f) (coll d name)), d, o)).

(** [collection(name).insertOne(x)]: a document without [_id] gets a
    fresh ObjectId. *)
Definition insertOne (name : string) (x : doc) : M unit :=
  call (fun d o =>
    match x !! "_id" with
    | Some _ => (Ok tt, <[name := (coll d name ++ [x])%list]> d, o)
    | None =>
        (Ok tt, <[name := (coll d name ++ [<["_id" := VOid o]> x])%list]> d,
         N.succ o)
    end).

(** [collection(name).updateOne(f, {$set: u})]: the first match gets the
    fields of [u]; with no match, or with no field in [u], nothing changes.
    The driver would refuse a change of [_id]; the model lets any field be
    set, so that what protects [_id] is the handler. *)
Definition updateOne_set (name : string) (f : filter) (u : doc) : M unit :=
  call (fun d o =>
    (Ok tt, <[name := update_first f (set_fields u) (coll d name)]> d, o)).

(** [collection(name).deleteOne(f)], resolving to [deletedCount]. *)
Definition deleteOne (name : string) (f : filter) : M Z :=
  call (fun d o =>
    let '(c', n) := delete_first f (coll d name) in
    (Ok n, <[name := c']> d, o)).

(** What [findOneAndUpdate(f, {$inc: {k: by}}, {upsert: true,
    returnDocument: "after"})] does to a collection: the first match is
    incremented in place, or a new document is made from the filter and
    appended; the document as it is afterwards is returned with the new
    collection. *)
Definition find_inc (f : filter) (k : string) (by_ : Z) (c : collection)
  : outcome (doc * collection) :=
  match List.find (matches f) c with
  | Some old =>
      match inc_field k by_ old with
      | Ok new => Ok (new, update_first f (fun _ => new) c)
      | Throw msg => Throw msg
      end
  | None =>
      match inc_field k by_ (seed f) with
      | Ok new => Ok (new, (c ++ [new])%list)
      | Throw msg => Throw msg
      end
  end.

(** [collection(name).findOneAndUpdate(f, {$inc: {k: by}},
    {upsert: true, returnDocument: "after"})], resolving to the document
    as it is after the update. *)
Definition findOneAndUpdate_inc (name : string) (f : filter)
    (k : string) (by_ : Z) : M doc :=
  call (fun d o =>
    match find_inc f k by_ (coll d name) with
    | Ok (new, c') => (Ok new, <[name := c']> d, o)
    | Throw msg => (Throw msg, d, o)
    end).

End Mongo.

(** ** db/connect.js *)

(** [getDb()]: throws until the connection has been made.  The handle it
    returns stands for the one shared database of the world. *)
Definition getDb : M unit :=
  fun w =>
    match db w with
    | None => (Throw "Database not connected", w)
    | Some _ => (Ok tt, w)
    end.

(** ** routes/contacts.js *)

Record Response : Type := mkResponse {
  status : Z;
  body : value
}.

(** [res.status(code).json(v)] *)
Definition json (code : Z) (v : value) : Response := mkResponse code v.

(** [{ error: msg }] *)
Definition error_body (msg : string) : value := VObj {[ "error" := VStr msg ]}.

(** [try { ... } catch (err) { res.status(500).json({ error: err.message }) }] *)
Definition try_catch (m : M Response) : World -> Response * World :=
  fun w =>
    match m w with
    | (Ok r, w') => (r, w')
    | (Throw msg, w') => (json 500 (error_body msg), w')
    end.

Definition getNextSequence (seqName : string) : M jsval :=
  do! getDb in
  let! counter :=
    Mongo.findOneAndUpdate_inc "counters" (Mongo.StrIs "_id" seqName) "seq" 1 in
  ret (counter !! "seq").

(** The ToObject step of [const { firstName, ... } = req.body]: the
    destructuring throws a TypeError on [undefined] and on [null]. *)
Definition destructure (x : jsval) : M value :=
  match x with
  | None =>
      throw "Cannot destructure property 'firstName' of 'req.body' as it is undefined."
  | Some VNull =>
      throw "Cannot destructure property 'firstName' of 'req.body' as it is null."
  | Some v => ret v
  end.

(** What [res.json] is given when the driver resolved to a document or to
    [null]. *)
Definition doc_or_null (x : option doc) : value :=
  match x with
  | Some d => VObj d
  | None => VNull
  end.

(** [router.get("/")] *)
Definition get_all_body : M Response :=
  do! getDb in
  let! contacts := Mongo.find_toArray "contacts" in
  ret (json 200 (VArr (VObj <$> contacts))).

Definition get_all : World -> Response * World := try_catch get_all_body.

(** [router.get("/:id")] *)
Definition get_one_body (id : string) : M Response :=
  match JS.parseInt id with
  | JS.NaN => ret (json 400 (error_body "Invalid ID"))
  | JS.Num idNum =>
      do! getDb in
      let! contact := Mongo.findOne "contacts" (Mongo.NumIs "id" idNum) in
      match contact with
      | None => ret (json 404 (error_body "Contact not found"))
      | Some c => ret (json 200 (VObj c))
      end
  end.

Definition get_one (id : string) : World -> Response * World :=
  try_catch (get_one_body id).

(** [router.post("/")] *)
Definition post_body (req_body : jsval) : M Response :=
  let! b := destructure req_body in
  let firstName := JS.get b "firstName" in
  let lastName := JS.get b "lastName" in
  let email := JS.get b "email" in
  let favoriteColor := JS.get b "favoriteColor" in
  let birthday := JS.get b "birthday" in
  if negb (JS.truthy firstName) || negb (JS.truthy lastName)
     || negb (JS.truthy email) || negb (JS.truthy favoriteColor)
     || negb (JS.truthy birthday)
  then ret (json 400 (error_body "All fields are required"))
  else
    let! id := getNextSequence "contacts" in
    let contactData :=
      JS.object [("id", id); ("firstName", firstName);
                 ("lastName", lastName); ("email", email);
                 ("favoriteColor", favoriteColor); ("birthday", birthday)] in
    do! getDb in
    do! Mongo.insertOne "contacts" contactData in
    ret (json 201 (VObj (JS.object [("id", id)]))).

Definition post (req_body : jsval) : World -> Response * World :=
  try_catch (post_body req_body).

(** [router.put("/:id")] *)
Definition put_body (id : string) (req_body : jsval) : M Response :=
  match JS.parseInt id with
  | JS.NaN => ret (json 400 (error_body "Invalid ID"))
  | JS.Num idNum =>
      do! getDb in
      let! existingContact :=
        Mongo.findOne "contacts" (Mongo.NumIs "id" idNum) in
      match existingContact with
      | None => ret (json 404 (error_body "Contact not found"))
      | Some _ =>
          let updateData := delete "_id" (delete "id" (JS.spread req_body)) in
          do! getDb in
          do! Mongo.updateOne_set "contacts" (Mongo.NumIs "id" idNum)
                updateData in
          do! getDb in
          let! updatedContact :=
            Mongo.findOne "contacts" (Mongo.NumIs "id" idNum) in
          ret (json 200 (doc_or_null updatedContact))
      end
  end.

Definition put (id : string) (req_body : jsval) : World -> Response * World :=
  try_catch (put_body id req_body).

(** [router.delete("/:id")] *)
Definition delete_body (id : string) : M Response :=
  match JS.parseInt id with
  | JS.NaN => ret (json 400 (error_body "Invalid ID"))
  | JS.Num idNum =>
      do! getDb in
      let! deletedCount :=
        Mongo.deleteOne "contacts" (Mongo.NumIs "id" idNum) in
      if deletedCount =? 0
      then ret (json 404 (error_body "Contact not found"))
      else ret (json 200
                  (VObj {[ "message" := VStr "Contact deleted successfully" ]}))
  end.

Definition delete_one (id : string) : World -> Response * World :=
  try_catch (delete_body id).

(** ** Requests to the router *)

Inductive Request : Type :=
  | GET_all
  | GET (id : string)
  | POST (req_body : jsval)
  | PUT (id : string) (req_body : jsval)
  | DELETE (id : string).

(** The part of the handler inside its [try] block. *)
Definition handler_body (r : Request) : M Response :=
  match r with
  | GET_all => get_all_body
  | GET id => get_one_body id
  | POST b => post_body b
  | PUT id b => put_body id b
  | DELETE id => delete_body id
  end.

Definition handle (r : Request) : World -> Response * World :=
  match r with
  | GET_all => get_all
  | GET id => get_one id
  | POST b => post b
  | PUT id b => put id b
  | DELETE id => delete_one id
  end.

(** Serving a list of requests in order. *)
Fixpoint serve (rs : list Request) (w : World) : list Response * World :=
  match rs with
  | [] => ([], w)
  | r :: rest =>
      let '(resp, w1) := handle r w in
      let '(resps, w2) := serve rest w1 in
      (resp :: resps, w2)
  end.

(** The world right after [connectToDatabase()] on an empty database. *)
Definition fresh : World := mkWorld (Some ∅) [] 0.


(** ** Notions the properties are stated with *)

(** The driver is connected and none of the calls to come is scripted to
    fail. *)
Definition healthy (w : World) : Prop := is_Some (db w) /\ faults w = [].

(** The five fields a new contact must carry. *)
Definition required : list string :=
  ["firstName"; "lastName"; "email"; "favoriteColor"; "birthday"].

(** All five required fields of [b] pass the truthiness test. *)
Definition complete (b : value) : bool :=
  forallb (fun f => JS.truthy (JS.get b f)) required.

(** All five required fields of [b] are there, whatever their value. *)
Definition all_present (b : value) : bool :=
  forallb (fun f => bool_decide (is_Some (JS.get b f))) required.

(** A numeric id in the plain sense of the word: an optional minus sign
    followed by decimal digits and nothing else. *)
Definition numeric (s : string) : bool :=
  match s with
  | String "-" (String c r) => JS.all_dec (String c r)
  | String c r => JS.all_dec (String c r)
  | EmptyString => false
  end.

(** The sequence id of a stored contact. *)
Definition contact_id (d : doc) : option Z :=
  match d !! "id" with
  | Some (VNum n) => Some n
  | _ => None
  end.

Definition ids (c : collection) : list Z := omap contact_id c.

Definition unique_ids (c : collection) : Prop := NoDup (ids c).

(** Where the counter of the contacts collection stands, read off the
    counters collection: 0 before its first increment, and nothing when the
    [seq] field of the counter document is not a number. *)
Definition sequence_of (c : collection) : option Z :=
  match List.find (Mongo.matches (Mongo.StrIs "_id" "contacts")) c with
  | None => Some 0
  | Some d =>
      match d !! "seq" with
      | None => Some 0
      | Some (VNum n) => Some n
      | Some _ => None
      end
  end.

Definition last_sequence (w : World) : option Z :=
  sequence_of (stored w "counters").

(** What an update whose body has the fields [u] must leave alone in a
    document: [id], [_id], and every field that [u] does not name. *)
Definition kept (u : doc) (x x' : doc) : Prop :=
  x' !! "id" = x !! "id" /\ x' !! "_id" = x !! "_id" /\
  forall k, u !! k = None -> x' !! k = x !! k.

(** The frame of PUT: the counters are untouched and the contacts are,
    one by one, kept in the sense above. *)
Definition put_frame (u : doc) (w w' : World) : Prop :=
  stored w' "counters" = stored w "counters" /\
  Forall2 (kept u) (stored w "contacts") (stored w' "contacts").

(** The frame of DELETE: the counters are untouched and no contact is
    added or changed. *)
Definition delete_frame (w w' : World) : Prop :=
  stored w' "counters" = stored w "counters" /\
  stored w' "contacts" `sublist_of` stored w "contacts".

(** The contact stored under the id [n]: the one a lookup by id finds,
    which is the first stored contact whose id is [n]. *)
Definition stored_under (n : Z) (c : collection) : option doc :=
  List.find (Mongo.matches (Mongo.NumIs "id" n)) c.

(** The invariant of the data model: the stored contacts have unique ids,
    none above the value the counter stands at. *)
Definition consistent (w : World) : Prop :=
  unique_ids (stored w "contacts") /\
  exists k, last_sequence w = Some k /\
            Forall (fun n => n <= k) (ids (stored w "contacts")).

(** A computation all of whose runs relate the world before to the world
    after by [R]. *)
Definition preserves {A} (R : relation World) (m : M A) : Prop :=
  forall w r w', m w = (r, w') -> R w w'.

(** Health is kept from one world to the next. *)
Definition stays_healthy (w w' : World) : Prop := healthy w -> healthy w'.

(** The [id] fields of the 201 responses, in order. *)
Definition created (resps : list Response) : list jsval :=
  (fun r => JS.get (body r) "id") <$> filter (fun r => status r = 201) resps.

(** Sample data. *)
Definition ada : doc :=
  JS.object [("firstName", Some (VStr "Ada")); ("lastName", Some (VStr "Lovelace"));
             ("email", Some (VStr "ada@example.org"));
             ("favoriteColor", Some (VStr "red"));
             ("birthday", Some (VStr "1815-12-10"))].

(** The database holding one contact, with sequence id 12. *)
Definition twelve : doc := <["id" := VNum 12]> (<["_id" := VOid 0]> ada).

Definition with_twelve : World :=
  mkWorld (Some {[ "contacts" := [twelve];
                   "counters" := [ {[ "_id" := VStr "contacts"; "seq" := VNum 12 ]} ] ]})
          [] 1.

(** ** Start-up: db/connect.js and server.js *)

(** [connectToDatabase()]: [client.connect()] is a call to the driver,
    which may reject; after it [db] is the database the connection string
    names, here [named]. *)
Definition connectToDatabase (named : Database) : M unit :=
  fun w =>
    match faults w with
    | Some msg :: fs => (Throw msg, mkWorld (db w) fs (next_oid w))
    | fs0 => (Ok tt, mkWorld (Some named) (tail fs0) (next_oid w))
    end.

(** What becomes of the process that server.js starts. *)
Inductive Process : Type :=
  | Listening (w : World)
  | Exited (code : Z).

(** [connectToDatabase().then(() => app.listen(port, ...))
      .catch((err) => { ...; process.exit(1) })]: the [catch] is chained
    after the [then], so it also gets what [app.listen] throws.  Whether
    [app.listen] returns or throws (on a port out of range, say) is given
    by [listen]: [None] when it returns, [Some msg] when it throws. *)
Definition start (named : Database) (listen : option string) (w : World)
  : Process :=
  match connectToDatabase named w with
  | (Ok _, w') =>
      match listen with
      | None => Listening w'
      | Some _ => Exited 1
      end
  | (Throw _, _) => Exited 1
  end.

(** ** server.js: the application around the router *)

(** What [express.json()] makes of the body of a request: there is no JSON
    body to parse; it is the text of a JSON object or array; or the parser
    refuses it (malformed JSON, or JSON that is neither an object nor an
    array).  Refusals for size or character set are not modelled. *)
Inductive Payload : Type :=
  | NoJson
  | JsonObject (fields : gmap string value)
  | JsonArray (items : list value)
  | Refused.

(** The five routes of the router, by method and path.  [id] is the path
    parameter as the router decodes it from the path, or nothing when the
    segment does not decode (a stray [%]). *)
Inductive Endpoint : Type :=
  | GET_contacts
  | GET_contact (id : option string)
  | POST_contacts
  | PUT_contact (id : option string)
  | DELETE_contact (id : option string).

Record Incoming : Type := mkIncoming {
  endpoint : Endpoint;
  payload : Payload
}.

(** What goes back to the client: JSON written by [res.json], or the HTML
    page of Express's own final handler. *)
Inductive ReplyBody : Type :=
  | JsonBody (v : value)
  | HtmlPage.

Record Reply : Type := mkReply {
  reply_status : Z;
  reply_body : ReplyBody
}.

(** [app.use(express.json())]: [req.body] as the handlers find it, or
    nothing when the parser refuses the body.  [unparsed] is the
    [req.body] of a request without a JSON body: [{}] or [undefined],
    depending on the version of Express. *)
Definition express_json (unparsed : jsval) (p : Payload) : option jsval :=
  match p with
  | NoJson => Some unparsed
  | JsonObject m => Some (Some (VObj m))
  | JsonArray l => Some (Some (VArr l))
  | Refused => None
  end.

(** [app.use("/contacts", contactsRoutes)]: the request as its handler gets
    it, or nothing when the path parameter does not decode. *)
Definition routed (e : Endpoint) (req_body : jsval) : option Request :=
  match e with
  | GET_contacts => Some GET_all
  | GET_contact id => GET <$> id
  | POST_contacts => Some (POST req_body)
  | PUT_contact id => (fun id => PUT id req_body) <$> id
  | DELETE_contact id => DELETE <$> id
  end.

(** The middleware in the order of server.js: the body parser, then the
    router. *)
Definition parsed (unparsed : jsval) (i : Incoming) : option Request :=
  match express_json unparsed (payload i) with
  | Some req_body => routed (endpoint i) req_body
  | None => None
  end.

(** The application has no error-handling middleware of its own: the error
    of a refused body or of a path that does not decode goes to Express's
    final handler, which answers with the error's status, 400, and an HTML
    page.  Every other request is answered by its handler. *)
Definition app (unparsed : jsval) (i : Incoming) (w : World) : Reply * World :=
  match parsed unparsed i with
  | None => (mkReply 400 HtmlPage, w)
  | Some r =>
      let '(resp, w') := handle r w in
      (mkReply (status resp) (JsonBody (body resp)), w')
  end.

(** ** Further notions *)

(** [getDb()] would not throw. *)
Definition connected (w : World) : Prop := is_Some (db w).

Definition stays_connected (w w' : World) : Prop := connected w -> connected w'.

(** Where the counter called [name] stands in a counters collection; as
    [sequence_of], for any sequence name. *)
Definition sequence_named (name : string) (c : collection) : option Z :=
  match List.find (Mongo.matches (Mongo.StrIs "_id" name)) c with
  | None => Some 0
  | Some d =>
      match d !! "seq" with
      | None => Some 0
      | Some (VNum n) => Some n
      | Some _ => None
      end
  end.

(** The document that POST stores for the body [b] when the sequence gives
    [n] and the driver the ObjectId [o]. *)
Definition new_contact (o : N) (n : Z) (b : value) : doc :=
  <["_id" := VOid o]>
    (JS.object [("id", Some (VNum n)); ("firstName", JS.get b "firstName");
                ("lastName", JS.get b "lastName"); ("email", JS.get b "email");
                ("favoriteColor", JS.get b "favoriteColor");
                ("birthday", JS.get b "birthday")]).

(** A contact is as it was unless its id is [n]. *)
Definition same_unless (n : Z) (x x' : doc) : Prop :=
  contact_id x <> Some n -> x' = x.

Definition others_same (n : Z) (w w' : World) : Prop :=
  Forall2 (same_unless n) (stored w "contacts") (stored w' "contacts").

(** More sample data: a body with fields beyond the five, and a world with
    three contacts. *)
Definition ada_and_more : doc :=
  <["id" := VNum 99]> (<["_id" := VStr "mine"]> (<["admin" := VBool true]> ada)).

Definition contact_numbered (o : N) (n : Z) : doc :=
  <["id" := VNum n]> (<["_id" := VOid o]> ada).

Definition three_contacts : World :=
  mkWorld (Some {[ "contacts" := [contact_numbered 0 1; contact_numbered 1 2;
                                  contact_numbered 2 3];
                   "counters" := [ {[ "_id" := VStr "contacts"; "seq" := VNum 3 ]} ] ]})
          [] 3.

(** * Properties of the JavaScript primitives *)

Module JSFacts.
Import JS.

Lemma code_digit_char d : 0 <= d < 10 -> code (digit_char d) = 48 + d.
Proof.
  intros Hd. unfold code, digit_char.
  rewrite N_ascii_embedding by lia. lia.
Qed.

Lemma dec_digit_char d : 0 <= d < 10 -> dec (digit_char d) = true.
Proof.
  intros Hd. unfold dec. rewrite code_digit_char by done.
  apply andb_true_intro; split; apply Z.leb_le; lia.
Qed.

Lemma radix_digit_char d : 0 <= d < 10 -> radix_digit 10 (digit_char d) = Some d.
Proof.
  intros Hd. unfold radix_digit, digit_value.
  rewrite code_digit_char by done.
  replace ((48 <=? 48 + d) && (48 + d <=? 57)) with true
    by (symmetry; apply andb_true_intro; split; apply Z.leb_le; lia).
  replace (48 + d - 48) with d by lia.
  destruct (Z.ltb_spec d 10); [done | lia].
Qed.

Lemma all_dec_digits_of f n acc :
  0 <= n -> all_dec acc = true -> all_dec (digits_of f n acc) = true.
Proof.
  revert n acc. induction f as [|f IH]; intros n acc Hn Hacc; simpl; [done|].
  assert (Hd : 0 <= n mod 10 < 10) by (apply Z.mod_pos_bound; lia).
  assert (Hacc' : all_dec (String (digit_char (n mod 10)) acc) = true).
  { simpl. by rewrite dec_digit_char, Hacc. }
  destruct (n <? 10); [done|].
  apply IH; [apply Z.div_pos; lia | done].
Qed.

(** Reading back what [digits_of] wrote in front of [acc]. *)
Lemma leading_digits_of f n acc :
  0 <= n -> (Z.to_nat n < f)%nat ->
  exists ds, ds <> [] /\
    leading_digits 10 (digits_of f n acc) = (ds ++ leading_digits 10 acc)%list /\
    forall a, fold_left (fun x d => x * 10 + d) ds a
              = a * 10 ^ Z.of_nat (List.length ds) + n.
Proof.
  revert n acc. induction f as [|f IH]; intros n acc Hn Hf; [lia|].
  simpl digits_of.
  assert (Hd : 0 <= n mod 10 < 10) by (apply Z.mod_pos_bound; lia).
  destruct (Z.ltb_spec n 10) as [Hlt|Hge].
  - exists [n]. split; [done|]. split.
    + simpl. rewrite Z.mod_small by lia.
      by rewrite radix_digit_char by lia.
    + intros a. simpl. lia.
  - destruct (IH (n / 10) (String (digit_char (n mod 10)) acc))
      as (ds & Hne & Hlead & Hval).
    { apply Z.div_pos; lia. }
    { assert (n / 10 < n) by (apply Z.div_lt; lia).
      assert (0 <= n / 10) by (apply Z.div_pos; lia). lia. }
    exists (ds ++ [n mod 10])%list. split; [by destruct ds|]. split.
    + rewrite Hlead. simpl. rewrite radix_digit_char by done.
      by rewrite <- app_assoc.
    + intros a. rewrite fold_left_app. simpl. rewrite Hval.
      rewrite length_app. simpl.
      rewrite Nat2Z.inj_add, Z.pow_add_r by lia.
      change (10 ^ Z.of_nat 1) with 10.
      pose proof (Z.div_mod n 10). lia.
Qed.

Lemma trim_start_dec s : all_dec s = true -> trim_start s = s.
Proof.
  destruct s as [|c r]; [done|]. simpl. intros [Hc _]%andb_prop.
  unfold dec in Hc. apply andb_prop in Hc as [H1%Z.leb_le H2%Z.leb_le].
  unfold is_space.
  destruct (Z.leb_spec 9 (code c)), (Z.leb_spec (code c) 13),
    (Z.eqb_spec (code c) 32), (Z.eqb_spec (code c) 160); simpl; done || lia.
Qed.

Lemma dec_code c : dec c = true -> 48 <= code c <= 57.
Proof.
  unfold dec. intros [H1%Z.leb_le H2%Z.leb_le]%andb_prop. lia.
Qed.

Lemma strip_sign_dec s : all_dec s = true -> strip_sign s = (1, s).
Proof.
  destruct s as [|c r]; [done|]. simpl. intros [Hc%dec_code _]%andb_prop.
  destruct c as [[] [] [] [] [] [] [] []]; try done;
    vm_compute in Hc; exfalso; destruct Hc as [H1 H2]; by (apply H1 || apply H2).
Qed.

Lemma strip_prefix_dec s : all_dec s = true -> strip_prefix s = (10, s).
Proof.
  destruct s as [|c [|c' r]]; [done| |].
  - intros _. simpl. by destruct c as [[] [] [] [] [] [] [] []].
  - simpl. intros [_ [Hc%dec_code _]%andb_prop]%andb_prop.
    destruct c as [[] [] [] [] [] [] [] []]; try done;
    destruct c' as [[] [] [] [] [] [] [] []]; try done;
      vm_compute in Hc; exfalso; destruct Hc as [H1 H2]; by (apply H1 || apply H2).
Qed.

Lemma parseInt_digits_of n :
  0 <= n ->
  forall sign s,
    strip_sign (trim_start s) = (sign, digits_of (S (Z.to_nat n)) n "") ->
    parseInt s = Num (sign * n).
Proof.
  intros Hn sign s Hs. unfold parseInt. rewrite Hs.
  rewrite strip_prefix_dec by (by apply all_dec_digits_of).
  destruct (leading_digits_of (S (Z.to_nat n)) n "" Hn) as (ds & Hne & Hlead & Hval);
    [lia|].
  rewrite Hlead. change (leading_digits 10 "") with (@nil Z).
  rewrite app_nil_r.
  assert (Hv : digits_value 10 ds = n).
  { unfold digits_value. rewrite Hval. lia. }
  destruct ds; [done|]. by rewrite Hv.
Qed.

(** [parseInt] reads the decimal representation of an integer back. *)
Lemma parseInt_decimal n : parseInt (decimal n) = Num n.
Proof.
  unfold decimal. destruct (Z.ltb_spec n 0) as [Hneg|Hpos].
  - replace n with (-1 * - n) at 3 by lia.
    apply parseInt_digits_of; [lia|]. reflexivity.
  - replace n with (1 * n) at 3 by lia.
    apply parseInt_digits_of; [done|].
    assert (Hdec : all_dec (digits_of (S (Z.to_nat n)) n "") = true)
      by (by apply all_dec_digits_of).
    rewrite trim_start_dec by done. by apply strip_sign_dec.
Qed.

(** What [parseInt] makes of a few id strings. *)
Example parseInt_samples :
  parseInt "12" = Num 12 /\ parseInt "12abc" = Num 12 /\
  parseInt " 12" = Num 12 /\ parseInt "-7" = Num (-7) /\
  parseInt "1.5" = Num 1 /\ parseInt "0x1A" = Num 26 /\
  parseInt "abc" = NaN /\ parseInt "-" = NaN /\ parseInt "" = NaN /\
  parseInt "0xg" = NaN.
Proof. repeat split. Qed.

End JSFacts.

(** * Evaluation of the handlers *)

Section Evaluation.

Lemma call_healthy {A} (op : Database -> N -> outcome A * Database * N) w d :
  db w = Some d -> faults w = [] ->
  Mongo.call op w =
    (let '(r, d', o') := op d (next_oid w) in (r, mkWorld (Some d') [] o')).
Proof. intros Hd Hf. unfold Mongo.call. by rewrite Hf, Hd. Qed.

Lemma getDb_connected w d : db w = Some d -> getDb w = (Ok tt, w).
Proof. intros Hd. unfold getDb. by rewrite Hd. Qed.

Lemma world_eta w d : db w = Some d -> faults w = [] ->
  mkWorld (Some d) [] (next_oid w) = w.
Proof. destruct w; simpl; by intros -> ->. Qed.

Lemma findOne_healthy name f w d :
  db w = Some d -> faults w = [] ->
  Mongo.findOne name f w = (Ok (List.find (Mongo.matches f) (coll d name)), w).
Proof.
  intros Hd Hf. unfold Mongo.findOne.
  rewrite (call_healthy _ w d Hd Hf). by rewrite world_eta.
Qed.

(** The test of [router.post] fails exactly on an incomplete body. *)
Lemma post_body_test (b : value) :
  b <> VNull ->
  post_body (Some b) =
    if complete b then
      (let! id := getNextSequence "contacts" in
       let contactData :=
         JS.object [("id", id); ("firstName", JS.get b "firstName");
                    ("lastName", JS.get b "lastName"); ("email", JS.get b "email");
                    ("favoriteColor", JS.get b "favoriteColor");
                    ("birthday", JS.get b "birthday")] in
       do! getDb in
       do! Mongo.insertOne "contacts" contactData in
       ret (json 201 (VObj (JS.object [("id", id)]))))
    else ret (json 400 (error_body "All fields are required")).
Proof.
  intros Hb. unfold post_body, complete, required. simpl forallb.
  assert (Hd : destructure (Some b) = ret b) by (by destruct b).
  rewrite Hd. unfold bind at 1. unfold ret at 1.
  destruct (JS.truthy (JS.get b "firstName")),
    (JS.truthy (JS.get b "lastName")), (JS.truthy (JS.get b "email")),
    (JS.truthy (JS.get b "favoriteColor")), (JS.truthy (JS.get b "birthday"));
    reflexivity.
Qed.

End Evaluation.

(** * GET /contacts/:id *)

Section GetOne.

Lemma get_one_NaN id w :
  JS.parseInt id = JS.NaN ->
  get_one id w = (json 400 (error_body "Invalid ID"), w).
Proof.
  intros Hid. unfold get_one, try_catch, get_one_body. by rewrite Hid.
Qed.

Lemma get_one_healthy id n w d :
  JS.parseInt id = JS.Num n -> db w = Some d -> faults w = [] ->
  get_one id w =
    (match List.find (Mongo.matches (Mongo.NumIs "id" n)) (coll d "contacts") with
     | None => json 404 (error_body "Contact not found")
     | Some c => json 200 (VObj c)
     end, w).
Proof.
  intros Hid Hd Hf. unfold get_one, try_catch, get_one_body. rewrite Hid.
  unfold bind. rewrite (getDb_connected w d Hd).
  rewrite (findOne_healthy _ _ w d Hd Hf).
  by destruct (List.find _ _).
Qed.

End GetOne.

(** * Looking contacts up by their sequence id *)

Section Lookup.

Implicit Types (c : collection) (d x y : doc) (n : Z).

Lemma matches_id n d :
  Mongo.matches (Mongo.NumIs "id" n) d = true <-> contact_id d = Some n.
Proof.
  unfold Mongo.matches, contact_id.
  destruct (d !! "id") as [[]|]; try (split; discriminate).
  rewrite Z.eqb_eq. split; congruence.
Qed.

Lemma ids_cons x c :
  ids (x :: c) = match contact_id x with Some n => n :: ids c | None => ids c end.
Proof. reflexivity. Qed.

Lemma find_id_None n c :
  List.find (Mongo.matches (Mongo.NumIs "id" n)) c = None <-> n ∉ ids c.
Proof.
  induction c as [|x c IH].
  - split; [intros _; apply not_elem_of_nil | done].
  - rewrite ids_cons. cbn [List.find].
    destruct (Mongo.matches _ x) eqn:Hm.
    + apply matches_id in Hm. rewrite Hm. split; [done|].
      intros Hn. exfalso. apply Hn. left.
    + assert (contact_id x <> Some n) as Hx.
      { intros Hx%matches_id. congruence. }
      rewrite IH. destruct (contact_id x) as [m|]; [|done].
      rewrite not_elem_of_cons. split; [|tauto].
      intros Hn. split; [congruence | done].
Qed.

Lemma find_id_Some n c x :
  List.find (Mongo.matches (Mongo.NumIs "id" n)) c = Some x ->
  x ∈ c /\ contact_id x = Some n.
Proof.
  intros [Hin Hm]%find_some. split.
  - by apply list_elem_of_In.
  - by apply matches_id.
Qed.

Lemma unique_ids_first n c x :
  unique_ids c -> x ∈ c -> contact_id x = Some n ->
  List.find (Mongo.matches (Mongo.NumIs "id" n)) c = Some x.
Proof.
  unfold unique_ids. induction c as [|y c IH]; intros Hnd Hin Hx.
  - by apply elem_of_nil in Hin.
  - rewrite ids_cons in Hnd. cbn [List.find].
    destruct (Mongo.matches _ y) eqn:Hm.
    + apply matches_id in Hm. rewrite Hm in Hnd.
      apply NoDup_cons in Hnd as [Hfresh _].
      apply elem_of_cons in Hin as [->|Hin]; [done|].
      exfalso. apply Hfresh. unfold ids. apply list_elem_of_omap. eauto.
    + apply elem_of_cons in Hin as [->|Hin].
      { apply matches_id in Hx. congruence. }
      apply IH; [|done..].
      destruct (contact_id y); [by apply NoDup_cons in Hnd as [_ ?] | done].
Qed.

End Lookup.

(** * GET /contacts/:id: specified behaviour *)

Example numeric_samples :
  numeric "12" = true /\ numeric "-3" = true /\
  numeric "12abc" = false /\ numeric "abc" = false /\ numeric "" = false.
Proof. repeat split. Qed.

(** C1, as stated, fails: "12abc" is not a numeric string, yet the handler
    reads the id 12 from it and returns the contact stored under 12. *)
Lemma get_nonnumeric_id_counterexample :
  numeric "12abc" = false /\
  get_one "12abc" with_twelve = (json 200 (VObj twelve), with_twelve).
Proof. split; vm_compute; reflexivity. Qed.

(** C1, amended: when [parseInt] reads no number from the id path parameter
    (it yields NaN), GET /contacts/:id answers 400 with the body
    [{error: "Invalid ID"}]; no contact is returned and the world is left
    as it was, whatever its state. *)
Theorem get_invalid_id (id : string) (w : World) :
  JS.parseInt id = JS.NaN ->
  get_one id w = (json 400 (error_body "Invalid ID"), w).
Proof.
  intros Hid. unfold get_one, try_catch, get_one_body.
  rewrite Hid. unfold ret. reflexivity.
Qed.

Lemma get_invalid_id_witness :
  JS.parseInt "abc" = JS.NaN /\
  get_one "abc" with_twelve = (json 400 (error_body "Invalid ID"), with_twelve).
Proof.
  split; [reflexivity|].
  apply (get_invalid_id "abc" with_twelve). reflexivity.
Defined.

(** C5: on a healthy world, for an id that [parseInt] reads as the number
    [n], GET /contacts/:id answers 404 with [{error: "Contact not found"}]
    when no stored contact has id [n]; it answers 200 with a stored contact
    whose id is [n] when there is one, and that is the one contact with id
    [n] when ids are unique.  The world is unchanged in every case. *)
Theorem get_by_id (id : string) (n : Z) (w : World) :
  healthy w ->
  JS.parseInt id = JS.Num n ->
  (n ∉ ids (stored w "contacts") ->
     get_one id w = (json 404 (error_body "Contact not found"), w)) /\
  (n ∈ ids (stored w "contacts") ->
     exists c, c ∈ stored w "contacts" /\ contact_id c = Some n /\
               get_one id w = (json 200 (VObj c), w)) /\
  (unique_ids (stored w "contacts") ->
     forall c, c ∈ stored w "contacts" -> contact_id c = Some n ->
               get_one id w = (json 200 (VObj c), w)).
Proof.
  intros [[d Hd] Hf] Hid.
  rewrite (get_one_healthy id n w d Hid Hd Hf).
  unfold stored. rewrite Hd.
  split; [|split].
  - intros Hn. apply find_id_None in Hn. by rewrite Hn.
  - intros Hn.
    destruct (List.find _ (coll d "contacts")) as [c|] eqn:Hfind.
    + apply find_id_Some in Hfind as [Hin Hc]. eauto.
    + apply find_id_None in Hfind. contradiction.
  - intros Huniq c Hin Hc.
    by rewrite (unique_ids_first n _ c Huniq Hin Hc).
Qed.

Lemma get_by_id_witness :
  get_one "12" with_twelve = (json 200 (VObj twelve), with_twelve) /\
  get_one "13" with_twelve = (json 404 (error_body "Contact not found"), with_twelve).
Proof.
  assert (Hh : healthy with_twelve) by (split; [by eexists | reflexivity]).
  split.
  - apply (get_by_id "12" 12 with_twelve Hh eq_refl).
    + unfold unique_ids. vm_compute. apply NoDup_singleton.
    + vm_compute. left.
    + reflexivity.
  - apply (get_by_id "13" 13 with_twelve Hh eq_refl).
    vm_compute. intros Hin. apply list_elem_of_singleton in Hin. discriminate.
Defined.

(** * Stepping through a handler *)

Section Steps.

Context {A B : Type}.

Lemma bind_Ok (m : M A) (k : A -> M B) w r w' :
  bind m k w = (Ok r, w') ->
  exists a w1, m w = (Ok a, w1) /\ k a w1 = (Ok r, w').
Proof.
  unfold bind. destruct (m w) as [[a|msg] w1]; [eauto | discriminate].
Qed.

Lemma bind_Throw (m : M A) (k : A -> M B) w msg w' :
  bind m k w = (Throw msg, w') ->
  m w = (Throw msg, w') \/
  exists a w1, m w = (Ok a, w1) /\ k a w1 = (Throw msg, w').
Proof.
  unfold bind. destruct (m w) as [[a|msg'] w1]; [eauto|].
  intros [= -> ->]. by left.
Qed.

Lemma ret_Ok (a r : A) w w' : ret a w = (Ok r, w') -> r = a /\ w' = w.
Proof. unfold ret. by intros [= -> ->]. Qed.

End Steps.

Lemma getDb_Ok w w' : getDb w = (Ok tt, w') -> w' = w /\ is_Some (db w).
Proof.
  unfold getDb. destruct (db w) eqn:Hd; [|discriminate].
  intros [= ->]. eauto.
Qed.

(** What a driver call can do to the world. *)
Lemma call_inv {A} (op : Database -> N -> outcome A * Database * N) w r w' :
  Mongo.call op w = (r, w') ->
  (db w' = db w /\ exists msg, r = Throw msg) \/
  (exists d d' o', db w = Some d /\ op d (next_oid w) = (r, d', o') /\
                   db w' = Some d').
Proof.
  unfold Mongo.call. intros H.
  destruct (faults w) as [|[msg|] fs]; cycle 1.
  - injection H as <- <-. left. eauto.
  - destruct (db w) as [d|] eqn:Hd.
    + destruct (op d (next_oid w)) as [[r0 d'] o'] eqn:Hop.
      injection H as <- <-. right. exists d, d', o'. eauto.
    + injection H as <- <-. left. eauto.
  - destruct (db w) as [d|] eqn:Hd.
    + destruct (op d (next_oid w)) as [[r0 d'] o'] eqn:Hop.
      injection H as <- <-. right. exists d, d', o'. eauto.
    + injection H as <- <-. left. eauto.
Qed.

(** Follow a successful run of a [try] block down to the response it
    returns, forgetting the intermediate worlds. *)
Ltac unfold_steps :=
  repeat match goal with
  | H : bind _ _ _ = (Ok _, _) |- _ => apply bind_Ok in H as (? & ? & _ & H)
  | H : ret _ _ = (Ok _, _) |- _ => apply ret_Ok in H as [-> _]
  | H : (match ?x with _ => _ end) _ = (Ok _, _) |- _ => destruct x
  | H : (if ?x then _ else _) _ = (Ok _, _) |- _ => destruct x
  end.

(** * The id path parameter *)

Section PathId.

Lemma get_one_same s s' w :
  JS.parseInt s = JS.parseInt s' -> get_one s w = get_one s' w.
Proof. intros H. unfold get_one, get_one_body. by rewrite H. Qed.

Lemma put_same s s' b w :
  JS.parseInt s = JS.parseInt s' -> put s b w = put s' b w.
Proof. intros H. unfold put, put_body. by rewrite H. Qed.

Lemma delete_one_same s s' w :
  JS.parseInt s = JS.parseInt s' -> delete_one s w = delete_one s' w.
Proof. intros H. unfold delete_one, delete_body. by rewrite H. Qed.

Lemma put_NaN id b w :
  JS.parseInt id = JS.NaN ->
  put id b w = (json 400 (error_body "Invalid ID"), w).
Proof. intros Hid. unfold put, try_catch, put_body. by rewrite Hid. Qed.

Lemma delete_one_NaN id w :
  JS.parseInt id = JS.NaN ->
  delete_one id w = (json 400 (error_body "Invalid ID"), w).
Proof. intros Hid. unfold delete_one, try_catch, delete_body. by rewrite Hid. Qed.

(** A handler whose [try] block never yields 400 never answers 400. *)
Lemma try_catch_not_400 (m : M Response) w :
  (forall r w', m w = (Ok r, w') -> status r <> 400) ->
  status (try_catch m w).1 <> 400.
Proof.
  intros Hm. unfold try_catch. destruct (m w) as [[r|msg] w'] eqn:E; simpl.
  - by apply (Hm r w').
  - done.
Qed.

Lemma get_one_Num_not_400 id n w :
  JS.parseInt id = JS.Num n -> status (get_one id w).1 <> 400.
Proof.
  intros Hid. apply try_catch_not_400. intros r w'.
  unfold get_one_body. rewrite Hid. intros H. unfold_steps; done.
Qed.

Lemma put_Num_not_400 id n b w :
  JS.parseInt id = JS.Num n -> status (put id b w).1 <> 400.
Proof.
  intros Hid. apply try_catch_not_400. intros r w'.
  unfold put_body. rewrite Hid. intros H. unfold_steps; done.
Qed.

Lemma delete_one_Num_not_400 id n w :
  JS.parseInt id = JS.Num n -> status (delete_one id w).1 <> 400.
Proof.
  intros Hid. apply try_catch_not_400. intros r w'.
  unfold delete_body. rewrite Hid. intros H. unfold_steps; done.
Qed.

End PathId.

(** C9: the three handlers that take an id see it only through [parseInt].
    When [parseInt] reads the number [n] from the path string [s] (as it
    does from "12abc"), each of them behaves on [s] exactly as on the
    decimal representation of [n], and none of them answers 400; a string
    from which [parseInt] yields NaN gets the 400 invalid-id response from
    each of them. *)
Theorem id_through_parseInt (s : string) (n : Z) (b : jsval) (w : World) :
  JS.parseInt s = JS.Num n ->
  (get_one s w = get_one (JS.decimal n) w /\
   put s b w = put (JS.decimal n) b w /\
   delete_one s w = delete_one (JS.decimal n) w) /\
  (status (get_one s w).1 <> 400 /\
   status (put s b w).1 <> 400 /\
   status (delete_one s w).1 <> 400) /\
  (forall s', JS.parseInt s' = JS.NaN ->
     get_one s' w = (json 400 (error_body "Invalid ID"), w) /\
     put s' b w = (json 400 (error_body "Invalid ID"), w) /\
     delete_one s' w = (json 400 (error_body "Invalid ID"), w)).
Proof.
  intros Hs.
  assert (Hd : JS.parseInt s = JS.parseInt (JS.decimal n))
    by (by rewrite JSFacts.parseInt_decimal).
  split; [|split].
  - split; [|split].
    + by apply get_one_same.
    + by apply put_same.
    + by apply delete_one_same.
  - split; [|split].
    + by apply (get_one_Num_not_400 s n).
    + by apply (put_Num_not_400 s n).
    + by apply (delete_one_Num_not_400 s n).
  - intros s' Hs'. split; [|split].
    + by apply get_one_NaN.
    + by apply put_NaN.
    + by apply delete_one_NaN.
Qed.

Lemma id_through_parseInt_witness :
  JS.parseInt "12abc" = JS.Num 12 /\
  JS.decimal 12 = "12" /\
  get_one "12abc" with_twelve = get_one (JS.decimal 12) with_twelve /\
  put "12abc" (Some (VObj ada)) with_twelve
    = put (JS.decimal 12) (Some (VObj ada)) with_twelve /\
  delete_one "12abc" with_twelve = delete_one (JS.decimal 12) with_twelve.
Proof.
  split; [reflexivity|]. split; [reflexivity|].
  apply (id_through_parseInt "12abc" 12 (Some (VObj ada)) with_twelve).
  reflexivity.
Defined.

(** * POST /contacts *)

Section Post.

Lemma post_incomplete (b : value) w :
  b <> VNull -> complete b = false ->
  post (Some b) w = (json 400 (error_body "All fields are required"), w).
Proof.
  intros Hb Hc. unfold post, try_catch.
  by rewrite (post_body_test b Hb), Hc.
Qed.

(** A required field that fails the truthiness test makes the body
    incomplete. *)
Lemma falsy_incomplete (b : value) f :
  f ∈ required -> JS.truthy (JS.get b f) = false -> complete b = false.
Proof.
  intros Hf Ht. unfold complete. apply not_true_is_false.
  intros Hall. rewrite forallb_forall in Hall.
  apply list_elem_of_In in Hf. specialize (Hall f Hf). congruence.
Qed.

Lemma complete_get (b : value) f :
  complete b = true -> f ∈ required ->
  exists v, JS.get b f = Some v /\ JS.truthy (Some v) = true.
Proof.
  unfold complete. rewrite forallb_forall. intros Hall Hf.
  apply list_elem_of_In in Hf. specialize (Hall f Hf).
  destruct (JS.get b f) as [v|]; [eauto | discriminate].
Qed.

End Post.

(** C10: a required field that is present with a falsy value (the empty
    string, 0, false, null) is treated as an absent one: the handler
    answers 400 with [{error: "All fields are required"}], exactly what it
    answers to the same body without that field, and leaves the world as it
    was. *)
Theorem post_falsy_field (m : doc) (f : string) (v : value) (w : World) :
  f ∈ required ->
  m !! f = Some v ->
  JS.truthy (Some v) = false ->
  post (Some (VObj m)) w = (json 400 (error_body "All fields are required"), w) /\
  post (Some (VObj m)) w = post (Some (VObj (delete f m))) w.
Proof.
  intros Hf Hm Hv.
  assert (H1 : post (Some (VObj m)) w
               = (json 400 (error_body "All fields are required"), w)).
  { apply post_incomplete; [done|].
    apply (falsy_incomplete _ f Hf). simpl. by rewrite Hm. }
  split; [done|]. rewrite H1. symmetry.
  apply post_incomplete; [done|].
  apply (falsy_incomplete _ f Hf). simpl. by rewrite lookup_delete_eq.
Qed.

Lemma post_falsy_field_witness :
  post (Some (VObj (<["email" := VStr ""]> ada))) fresh
    = (json 400 (error_body "All fields are required"), fresh) /\
  post (Some (VObj (<["email" := VNum 0]> ada))) fresh
    = post (Some (VObj (delete "email" (<["email" := VNum 0]> ada)))) fresh.
Proof.
  split.
  - apply (post_falsy_field (<["email" := VStr ""]> ada) "email" (VStr "") fresh).
    + vm_compute. do 2 right. left.
    + reflexivity.
    + reflexivity.
  - apply (post_falsy_field (<["email" := VNum 0]> ada) "email" (VNum 0) fresh).
    + vm_compute. do 2 right. left.
    + reflexivity.
    + reflexivity.
Defined.

(** * The collections under the driver's operations *)

Section Collections.

Implicit Types (c : collection) (d : Database) (f : Mongo.filter).

Lemma coll_insert_eq d name c : coll (<[name := c]> d) name = c.
Proof. unfold coll. by rewrite lookup_insert_eq. Qed.

Lemma coll_insert_ne d name name' c :
  name <> name' -> coll (<[name := c]> d) name' = coll d name'.
Proof. intros Hne. unfold coll. by rewrite lookup_insert_ne. Qed.

Lemma find_update_first f (g : doc -> doc) c old :
  List.find (Mongo.matches f) c = Some old ->
  Mongo.matches f (g old) = true ->
  List.find (Mongo.matches f) (Mongo.update_first f g c) = Some (g old).
Proof.
  induction c as [|x c IH]; [done|]. simpl.
  destruct (Mongo.matches f x) eqn:Hx.
  - intros [= ->] Hg. simpl. by rewrite Hg.
  - intros Hfind Hg. simpl. rewrite Hx. by apply IH.
Qed.

Lemma find_snoc f c x :
  List.find (Mongo.matches f) c = None ->
  List.find (Mongo.matches f) (c ++ [x])%list
    = if Mongo.matches f x then Some x else None.
Proof.
  induction c as [|y c IH]; [done|]. simpl.
  destruct (Mongo.matches f y); [discriminate | done].
Qed.

(** One increment of the contacts counter. *)
Lemma find_inc_contacts c :
  match Mongo.find_inc (Mongo.StrIs "_id" "contacts") "seq" 1 c with
  | Ok (new, c') =>
      exists k, sequence_of c = Some k /\
                new !! "seq" = Some (VNum (k + 1)) /\
                sequence_of c' = Some (k + 1)
  | Throw _ => sequence_of c = None
  end.
Proof.
  unfold Mongo.find_inc, sequence_of.
  destruct (List.find _ c) as [old|] eqn:Hfind.
  - assert (Hold : Mongo.matches (Mongo.StrIs "_id" "contacts") old = true).
    { by apply find_some in Hfind as [_ ?]. }
    assert (Hkeep : forall v,
      Mongo.matches (Mongo.StrIs "_id" "contacts") (<["seq" := v]> old) = true).
    { intros v. unfold Mongo.matches in *. by rewrite lookup_insert_ne. }
    unfold Mongo.inc_field.
    destruct (old !! "seq") as [[]|] eqn:Hseq; try done.
    + exists n. split; [done|]. split; [by rewrite lookup_insert_eq|].
      rewrite (find_update_first _ (fun _ => <["seq" := VNum (n + 1)]> old) c old)
        by done.
      by rewrite lookup_insert_eq.
    + exists 0. split; [done|]. split; [by rewrite lookup_insert_eq|].
      rewrite (find_update_first _ (fun _ => <["seq" := VNum 1]> old) c old)
        by done.
      by rewrite lookup_insert_eq.
  - simpl. exists 0. split; [done|]. split; [done|].
    by rewrite find_snoc.
Qed.

End Collections.

(** * The effects of the handlers on the stored collections *)

Section Effects.

Lemma stored_db w w' name : db w' = db w -> stored w' name = stored w name.
Proof. unfold stored. by intros ->. Qed.

Lemma stored_Some w d name : db w = Some d -> stored w name = coll d name.
Proof. unfold stored. by intros ->. Qed.

Lemma last_sequence_stored w w' :
  stored w' "counters" = stored w "counters" ->
  last_sequence w' = last_sequence w.
Proof. unfold last_sequence. by intros ->. Qed.

Lemma object_cons_Some k v props :
  JS.object ((k, Some v) :: props) = <[k := v]> (JS.object props).
Proof. reflexivity. Qed.

Lemma object_cons_None k props :
  JS.object ((k, None) :: props) = JS.object props.
Proof. reflexivity. Qed.

Lemma contact_id_insert_oid (x : doc) o :
  contact_id (<["_id" := VOid o]> x) = contact_id x.
Proof. unfold contact_id. by rewrite lookup_insert_ne. Qed.

Lemma getNextSequence_spec w r w' :
  getNextSequence "contacts" w = (r, w') ->
  stored w' "contacts" = stored w "contacts" /\
  match r with
  | Ok id =>
      exists k, last_sequence w = Some k /\ id = Some (VNum (k + 1)) /\
                last_sequence w' = Some (k + 1)
  | Throw _ => stored w' "counters" = stored w "counters"
  end.
Proof.
  unfold getNextSequence. intros H.
  destruct r as [id|msg].
  - apply bind_Ok in H as ([] & w1 & Hget & H).
    apply getDb_Ok in Hget as [-> _].
    apply bind_Ok in H as (counter & w2 & H & Hret).
    apply ret_Ok in Hret as [-> ->].
    unfold Mongo.findOneAndUpdate_inc in H.
    apply call_inv in H as [[_ [msg [=]]]|(d & d' & o' & Hd & Hop & Hd')].
    pose proof (find_inc_contacts (coll d "counters")) as Hinc.
    destruct (Mongo.find_inc _ _ _ _) as [[new c']|msg]; [|discriminate].
    injection Hop as -> <- <-.
    destruct Hinc as (k & Hk & Hnew & Hk').
    rewrite (stored_Some _ _ _ Hd'), (stored_Some _ _ _ Hd).
    split; [by rewrite coll_insert_ne|].
    exists k. unfold last_sequence.
    rewrite (stored_Some _ _ _ Hd'), (stored_Some _ _ _ Hd), coll_insert_eq.
    done.
  - apply bind_Throw in H as [H|(a & w1 & H & H0)].
    { unfold getDb in H. destruct (db w); [discriminate|].
      injection H as _ <-. done. }
    destruct a. apply getDb_Ok in H as [-> _].
    apply bind_Throw in H0 as [H|(a' & w2 & _ & [=])].
    unfold Mongo.findOneAndUpdate_inc in H.
    apply call_inv in H as [[Hdb _]|(d & d' & o' & Hd & Hop & Hd')].
    { split; by apply stored_db. }
    destruct (Mongo.find_inc _ _ _ _) as [[new c']|msg']; [discriminate|].
    injection Hop as _ <- _.
    split; apply stored_db; congruence.
Qed.

(** What [insertOne] into the contacts collection can do. *)
Lemma insertOne_spec (x : doc) w r w' :
  Mongo.insertOne "contacts" x w = (r, w') ->
  stored w' "counters" = stored w "counters" /\
  match r with
  | Ok _ => exists x', contact_id x' = contact_id x /\
              stored w' "contacts" = (stored w "contacts" ++ [x'])%list
  | Throw _ => stored w' "contacts" = stored w "contacts"
  end.
Proof.
  unfold Mongo.insertOne. intros H.
  apply call_inv in H as [[Hdb [msg ->]]|(d & d' & o' & Hd & Hop & Hd')].
  { split; by apply stored_db. }
  rewrite !(stored_Some _ _ _ Hd'), !(stored_Some _ _ _ Hd).
  destruct (x !! "_id"); injection Hop as <- <- <-.
  - split; [by rewrite coll_insert_ne|]. exists x.
    by rewrite coll_insert_eq.
  - split; [by rewrite coll_insert_ne|]. exists (<["_id" := VOid (next_oid w)]> x).
    by rewrite coll_insert_eq, contact_id_insert_oid.
Qed.

End Effects.

Section PostEffects.

(** The three ways [router.post] can end: before the counter is touched,
    after the increment but without the insert, and with the contact
    created. *)
Lemma post_cases b w resp w' :
  post b w = (resp, w') ->
  (status resp <> 201 /\
   stored w' "contacts" = stored w "contacts" /\
   stored w' "counters" = stored w "counters") \/
  (exists k, last_sequence w = Some k /\ last_sequence w' = Some (k + 1) /\
     ((status resp = 500 /\ stored w' "contacts" = stored w "contacts") \/
      (exists c, resp = json 201 (VObj {[ "id" := VNum (k + 1) ]}) /\
                 contact_id c = Some (k + 1) /\
                 stored w' "contacts" = (stored w "contacts" ++ [c])%list))).
Proof.
  unfold post, try_catch.
  destruct b as [b|];
    [assert (b = VNull \/ b <> VNull) as [->|Hb]
       by (destruct b; (by left) || (by right))|].
  2: rewrite (post_body_test b Hb); destruct (complete b).
  1, 3, 4: intros [= <- <-]; left; done.
  destruct (bind _ _ w) as [[r|msg] w1] eqn:E; intros [= <- <-].
  - apply bind_Ok in E as (id & w2 & Hseq & E).
    apply getNextSequence_spec in Hseq as (Hc & k & Hk & -> & Hk').
    apply bind_Ok in E as ([] & w3 & Hget & E).
    apply getDb_Ok in Hget as [-> _].
    apply bind_Ok in E as ([] & w4 & Hins & E).
    apply ret_Ok in E as [-> ->].
    apply insertOne_spec in Hins as (Hcnt & x' & Hid & Hx').
    right. exists k. split; [done|].
    split; [by rewrite (last_sequence_stored _ _ Hcnt)|].
    right. exists x'. split; [done|]. split; [|by rewrite Hx', Hc].
    rewrite Hid, object_cons_Some. unfold contact_id.
    by rewrite lookup_insert_eq.
  - apply bind_Throw in E as [Hseq|(id & w2 & Hseq & E)].
    { apply getNextSequence_spec in Hseq as [Hc Hcnt]. left. done. }
    apply getNextSequence_spec in Hseq as (Hc & k & Hk & -> & Hk').
    right. exists k. split; [done|].
    apply bind_Throw in E as [Hget|([] & w3 & Hget & E)].
    { unfold getDb in Hget. destruct (db w2); [discriminate|].
      injection Hget as _ <-. split; [done|]. left. done. }
    apply getDb_Ok in Hget as [-> _].
    apply bind_Throw in E as [Hins|([] & w4 & _ & [=])].
    apply insertOne_spec in Hins as [Hcnt Hsame].
    split; [by rewrite (last_sequence_stored _ _ Hcnt)|].
    left. split; [done|]. by rewrite Hsame.
Qed.

End PostEffects.

Section OtherEffects.

(** A driver call that hands the database back as it got it. *)
Lemma call_read {A} (g : Database -> A) w r w' :
  Mongo.call (fun d o => (Ok (g d), d, o)) w = (r, w') -> db w' = db w.
Proof.
  intros H. apply call_inv in H as [[Hdb _]|(d & d' & o' & Hd & Hop & Hd')].
  - done.
  - injection Hop as _ <- _. congruence.
Qed.

Lemma try_catch_inv (m : M Response) w resp w' :
  try_catch m w = (resp, w') ->
  m w = (Ok resp, w') \/
  exists msg, m w = (Throw msg, w') /\ resp = json 500 (error_body msg).
Proof.
  unfold try_catch. destruct (m w) as [[r|msg] w1]; intros [= <- <-]; eauto.
Qed.

Lemma getDb_inv (r : outcome unit) w w' : getDb w = (r, w') -> w' = w.
Proof. unfold getDb. destruct (db w); by intros [= _ <-]. Qed.

Lemma bind_db {A B} (m : M A) (k : A -> M B) w r w' :
  (forall r1 w1, m w = (r1, w1) -> db w1 = db w) ->
  (forall a w1 r2 w2, m w = (Ok a, w1) -> k a w1 = (r2, w2) -> db w2 = db w1) ->
  bind m k w = (r, w') -> db w' = db w.
Proof.
  intros Hm Hk. unfold bind. destruct (m w) as [[a|msg] w1] eqn:E.
  - intros H. rewrite (Hk a w1 r w' eq_refl H). by apply (Hm (Ok a)).
  - intros [= <- <-]. by apply (Hm (Throw msg)).
Qed.

Lemma get_all_db w : db (get_all w).2 = db w.
Proof.
  unfold get_all, try_catch, get_all_body.
  destruct (bind _ _ w) as [r w'] eqn:E.
  assert (db w' = db w) as Hdb.
  { revert E. apply bind_db.
    - intros r1 w1 H. by rewrite (getDb_inv r1 w w1 H).
    - intros [] w1 r2 w2 _. apply bind_db.
      + intros r1 w3. apply call_read.
      + intros a w3 r3 w4 _ [= _ <-]. done. }
  by destruct r.
Qed.

Lemma get_one_db id w : db (get_one id w).2 = db w.
Proof.
  unfold get_one, try_catch, get_one_body.
  destruct (JS.parseInt id) as [|n]; [done|].
  destruct (bind _ _ w) as [r w'] eqn:E.
  assert (db w' = db w) as Hdb.
  { revert E. apply bind_db.
    - intros r1 w1 H. by rewrite (getDb_inv r1 w w1 H).
    - intros [] w1 r2 w2 _. apply bind_db.
      + intros r1 w3. apply call_read.
      + intros [c|] w3 r3 w4 _ [= _ <-]; done. }
  by destruct r.
Qed.

End OtherEffects.

(** * The responses a handler can give *)

Section Responses.

Lemma handler_body_Ok r w resp w' :
  handler_body r w = (Ok resp, w') ->
  status resp = 200 \/
  (status resp = 201 /\ exists b, r = POST b) \/
  ((status resp = 400 \/ status resp = 404) /\
   exists msg, body resp = error_body msg).
Proof.
  destruct r as [|id|b|id b|id]; simpl; intros H.
  - unfold get_all_body in H. unfold_steps. by left.
  - unfold get_one_body in H. unfold_steps.
    + right; right. split; [by left | by eexists].
    + by left.
    + right; right. split; [by right | by eexists].
  - unfold post_body, destructure in H. apply bind_Ok in H as (v & w1 & _ & H).
    unfold_steps.
    + right; right. split; [by left | by eexists].
    + right; left. split; [done | by eexists].
  - unfold put_body in H. unfold_steps.
    + right; right. split; [by left | by eexists].
    + by left.
    + right; right. split; [by right | by eexists].
  - unfold delete_body in H. unfold_steps.
    + right; right. split; [by left | by eexists].
    + right; right. split; [by right | by eexists].
    + by left.
Qed.

Lemma handle_try_catch r : handle r = try_catch (handler_body r).
Proof. by destruct r. Qed.

Lemma handle_status r w :
  status (handle r w).1 = 200 \/
  (status (handle r w).1 = 201 /\ exists b, r = POST b) \/
  ((status (handle r w).1 = 400 \/ status (handle r w).1 = 404 \/
    status (handle r w).1 = 500) /\
   exists msg, body (handle r w).1 = error_body msg).
Proof.
  rewrite handle_try_catch.
  destruct (try_catch (handler_body r) w) as [resp w'] eqn:E.
  apply try_catch_inv in E as [H|(msg & H & ->)]; simpl.
  - apply handler_body_Ok in H as [H|[H|[[H|H] Hb]]].
    + by left.
    + right; by left.
    + right; right. split; [by left | done].
    + right; right. split; [right; by left | done].
  - right; right. split; [right; by right | by eexists].
Qed.

End Responses.

(** * Frames *)

Section Frames.

Context (R : relation World) `{!Reflexive R, !Transitive R}.

Lemma bind_rel {A B} (m : M A) (k : A -> M B) w r w' :
  (forall r1 w1, m w = (r1, w1) -> R w w1) ->
  (forall a w1 r2 w2, m w = (Ok a, w1) -> k a w1 = (r2, w2) -> R w1 w2) ->
  bind m k w = (r, w') -> R w w'.
Proof.
  intros Hm Hk. unfold bind. destruct (m w) as [[a|msg] w1] eqn:E.
  - intros H. transitivity w1; [by apply (Hm (Ok a)) | by apply (Hk a w1 r w')].
  - intros [= <- <-]. by apply (Hm (Throw msg)).
Qed.

Lemma getDb_rel w r w1 : getDb w = (r, w1) -> R w w1.
Proof. intros ->%getDb_inv. reflexivity. Qed.

Lemma ret_rel {A} (a : A) r w w1 : ret a w = (r, w1) -> R w w1.
Proof. intros [= _ <-]. reflexivity. Qed.

Lemma try_catch_rel (m : M Response) w :
  (forall r w', m w = (r, w') -> R w w') -> R w (try_catch m w).2.
Proof.
  intros Hm. unfold try_catch.
  destruct (m w) as [[r|msg] w'] eqn:E; simpl; by eapply Hm.
Qed.

End Frames.

Section PutFrame.

Context (u : doc).

Global Instance kept_refl : Reflexive (kept u).
Proof. by intros x. Qed.

Global Instance kept_trans : Transitive (kept u).
Proof.
  intros x y z (H1 & H2 & H3) (H4 & H5 & H6). split; [congruence|].
  split; [congruence|]. intros k Hk. rewrite (H6 k Hk). by apply H3.
Qed.

Global Instance put_frame_refl : Reflexive (put_frame u).
Proof. intros w. split; [done|]. reflexivity. Qed.

Global Instance put_frame_trans : Transitive (put_frame u).
Proof.
  intros w1 w2 w3 [H1 H2] [H3 H4]. split; [congruence|].
  by etrans.
Qed.

Lemma put_frame_db w w' : db w' = db w -> put_frame u w w'.
Proof.
  intros Hdb. unfold put_frame. rewrite !(stored_db w w' _ Hdb).
  split; [done|]. reflexivity.
Qed.

End PutFrame.

Section PutEffects.

Lemma kept_set_fields (m x : doc) :
  kept m x (Mongo.set_fields (delete "_id" (delete "id" m)) x).
Proof.
  unfold kept, Mongo.set_fields. split; [|split].
  - apply lookup_union_r. rewrite lookup_delete_ne by done.
    apply lookup_delete_eq.
  - apply lookup_union_r. apply lookup_delete_eq.
  - intros k Hk. apply lookup_union_r.
    rewrite !lookup_delete_None. auto.
Qed.

Lemma update_first_kept f (m : doc) (c : collection) :
  Forall2 (kept m) c
    (Mongo.update_first f (Mongo.set_fields (delete "_id" (delete "id" m))) c).
Proof.
  induction c as [|x c IH]; simpl; [constructor|].
  destruct (Mongo.matches f x).
  - constructor; [apply kept_set_fields | reflexivity].
  - constructor; [reflexivity | done].
Qed.

Lemma updateOne_frame f (m : doc) w r w1 :
  Mongo.updateOne_set "contacts" f (delete "_id" (delete "id" m)) w = (r, w1) ->
  put_frame m w w1.
Proof.
  unfold Mongo.updateOne_set. intros H.
  apply call_inv in H as [[Hdb _]|(d & d' & o' & Hd & Hop & Hd')].
  { by apply put_frame_db. }
  injection Hop as _ <- _. unfold put_frame.
  rewrite !(stored_Some _ _ _ Hd'), !(stored_Some _ _ _ Hd).
  rewrite coll_insert_ne by done. split; [done|].
  rewrite coll_insert_eq. apply update_first_kept.
Qed.

Lemma findOne_db name f w r w1 :
  Mongo.findOne name f w = (r, w1) -> db w1 = db w.
Proof. unfold Mongo.findOne. apply call_read. Qed.

Lemma put_effect id b w : put_frame (JS.spread b) w (put id b w).2.
Proof.
  unfold put. apply try_catch_rel; try apply _. intros r w'.
  unfold put_body. destruct (JS.parseInt id) as [|n]; [by apply ret_rel|].
  apply bind_rel; try apply _; [by apply getDb_rel|]. intros [] w1 r1 w2 _.
  apply bind_rel; try apply _.
  { intros r2 w3 H. by apply put_frame_db, (findOne_db _ _ _ _ _ H). }
  intros [c|] w3 r2 w4 _; [|by apply ret_rel].
  apply bind_rel; try apply _; [by apply getDb_rel|]. intros [] w5 r3 w6 _.
  apply bind_rel; try apply _; [by apply updateOne_frame|].
  intros [] w7 r4 w8 _.
  apply bind_rel; try apply _; [by apply getDb_rel|]. intros [] w9 r5 w10 _.
  apply bind_rel; try apply _.
  { intros r6 w11 H. by apply put_frame_db, (findOne_db _ _ _ _ _ H). }
  intros updated w11 r6 w12 _. by apply ret_rel.
Qed.

End PutEffects.

Section DeleteEffects.

Global Instance delete_frame_refl : Reflexive delete_frame.
Proof. by intros w. Qed.

Global Instance delete_frame_trans : Transitive delete_frame.
Proof.
  intros w1 w2 w3 [H1 H2] [H3 H4]. split; [congruence | by etrans].
Qed.

Lemma delete_frame_db w w' : db w' = db w -> delete_frame w w'.
Proof.
  intros Hdb. unfold delete_frame. by rewrite !(stored_db w w' _ Hdb).
Qed.

Lemma delete_first_sublist f (c : collection) :
  (Mongo.delete_first f c).1 `sublist_of` c.
Proof.
  induction c as [|x c IH]; simpl; [done|].
  destruct (Mongo.matches f x); simpl.
  - by apply sublist_cons.
  - destruct (Mongo.delete_first f c) as [c' k]. simpl in *.
    by apply sublist_skip.
Qed.

Lemma deleteOne_frame f w r w1 :
  Mongo.deleteOne "contacts" f w = (r, w1) -> delete_frame w w1.
Proof.
  unfold Mongo.deleteOne. intros H.
  apply call_inv in H as [[Hdb _]|(d & d' & o' & Hd & Hop & Hd')].
  { by apply delete_frame_db. }
  pose proof (delete_first_sublist f (coll d "contacts")) as Hsub.
  destruct (Mongo.delete_first f (coll d "contacts")) as [c' k].
  injection Hop as _ <- _. unfold delete_frame.
  rewrite !(stored_Some _ _ _ Hd'), !(stored_Some _ _ _ Hd).
  rewrite coll_insert_ne by done. by rewrite coll_insert_eq.
Qed.

Lemma delete_effect id w : delete_frame w (delete_one id w).2.
Proof.
  unfold delete_one. apply try_catch_rel; try apply _. intros r w'.
  unfold delete_body. destruct (JS.parseInt id) as [|n]; [by apply ret_rel|].
  apply bind_rel; try apply _; [by apply getDb_rel|]. intros [] w1 r1 w2 _.
  apply bind_rel; try apply _; [by apply deleteOne_frame|].
  intros k w3 r2 w4 _. destruct (k =? 0); by apply ret_rel.
Qed.

End DeleteEffects.

(** * The sequence of created ids *)

Section Sequence.

(** A request either leaves the counters alone and creates nothing, or
    moves the contacts counter one up; a 201 response carries the new
    value. *)
Lemma handle_sequence r w :
  (stored (handle r w).2 "counters" = stored w "counters" /\
   status (handle r w).1 <> 201) \/
  (exists k, last_sequence w = Some k /\
             last_sequence (handle r w).2 = Some (k + 1) /\
             (status (handle r w).1 = 201 ->
              (handle r w).1 = json 201 (VObj {[ "id" := VNum (k + 1) ]}))).
Proof.
  destruct r as [|id|b|id b|id].
  1, 2, 4, 5: left; split.
  - apply stored_db, get_all_db.
  - destruct (handle_status GET_all w) as [H|[[_ [b [=]]]|[[H|[H|H]] _]]];
      rewrite H; done.
  - apply stored_db, get_one_db.
  - destruct (handle_status (GET id) w) as [H|[[_ [b [=]]]|[[H|[H|H]] _]]];
      rewrite H; done.
  - apply (put_effect id b w).
  - destruct (handle_status (PUT id b) w) as [H|[[_ [b' [=]]]|[[H|[H|H]] _]]];
      rewrite H; done.
  - apply (delete_effect id w).
  - destruct (handle_status (DELETE id) w) as [H|[[_ [b [=]]]|[[H|[H|H]] _]]];
      rewrite H; done.
  - simpl. destruct (post b w) as [resp w'] eqn:E. simpl.
    apply post_cases in E
      as [(Hs & _ & Hc)|(k & Hk & Hk' & [[Hs _]|(c & -> & _)])].
    + by left.
    + right. exists k. split; [done|]. split; [done|]. rewrite Hs. done.
    + right. exists k. done.
Qed.

Lemma created_cons resp resps :
  created (resp :: resps) =
    if decide (status resp = 201)
    then JS.get (body resp) "id" :: created resps
    else created resps.
Proof.
  unfold created. rewrite filter_cons. by destruct (decide _).
Qed.

Lemma serve_cons r rs w :
  serve (r :: rs) w =
    ((handle r w).1 :: (serve rs (handle r w).2).1,
     (serve rs (handle r w).2).2).
Proof.
  simpl. destruct (handle r w) as [resp w1]. simpl.
  by destruct (serve rs w1).
Qed.

Lemma serve_created rs : forall w,
  exists ns : list Z,
    created (serve rs w).1 = (fun n => Some (VNum n)) <$> ns /\
    StronglySorted Z.lt ns /\
    match last_sequence w with
    | Some k => Forall (Z.lt k) ns
    | None => ns = []
    end.
Proof.
  induction rs as [|r rs IH]; intros w.
  { exists []. split; [done|]. split; [constructor|].
    destruct (last_sequence w); [constructor | done]. }
  rewrite serve_cons. simpl. rewrite created_cons.
  destruct (IH (handle r w).2) as (ns & Hns & Hsorted & Hbound).
  destruct (handle_sequence r w) as [[Hc Hs]|(k & Hk & Hk' & Hresp)].
  - rewrite decide_False by done. exists ns. split; [done|]. split; [done|].
    by rewrite <- (last_sequence_stored _ _ Hc).
  - rewrite Hk. rewrite Hk' in Hbound.
    assert (Forall (Z.lt k) ns) as Hk_lt.
    { eapply Forall_impl; [exact Hbound|]. intros n Hn. simpl in Hn. lia. }
    destruct (decide (status (handle r w).1 = 201)) as [H201|H201].
    + exists ((k + 1) :: ns). rewrite (Hresp H201). simpl.
      split; [by rewrite lookup_singleton_eq, Hns|].
      split; [by constructor|]. constructor; [lia | done].
    + exists ns. done.
Qed.

End Sequence.

(** Two contacts created on an empty database, with a fetch in between. *)
Example created_ids_sample :
  created (serve [POST (Some (VObj ada)); GET "1"; POST (Some (VObj ada))] fresh).1
  = [Some (VNum 1); Some (VNum 2)].
Proof. vm_compute. reflexivity. Qed.

(** * The handlers on a healthy world *)

Section Healthy.

Lemma healthy_mk d o : healthy (mkWorld (Some d) [] o).
Proof. split; [by eexists | done]. Qed.

Lemma getNextSequence_healthy w k :
  healthy w -> last_sequence w = Some k ->
  exists w', getNextSequence "contacts" w = (Ok (Some (VNum (k + 1))), w') /\
             healthy w'.
Proof.
  intros [[d Hd] Hf] Hk. unfold getNextSequence, bind.
  rewrite (getDb_connected w d Hd). unfold Mongo.findOneAndUpdate_inc.
  rewrite (call_healthy _ w d Hd Hf).
  pose proof (find_inc_contacts (coll d "counters")) as Hinc.
  unfold last_sequence in Hk. rewrite (stored_Some _ _ _ Hd) in Hk.
  destruct (Mongo.find_inc _ _ _ _) as [[new c']|msg]; [|congruence].
  destruct Hinc as (k' & Hk1 & Hnew & _).
  assert (k' = k) as -> by congruence.
  eexists. unfold ret. rewrite Hnew. split; [reflexivity|].
  apply healthy_mk.
Qed.

Lemma insertOne_healthy (x : doc) w :
  healthy w ->
  exists w', Mongo.insertOne "contacts" x w = (Ok tt, w') /\ healthy w'.
Proof.
  intros [[d Hd] Hf]. unfold Mongo.insertOne.
  rewrite (call_healthy _ w d Hd Hf).
  destruct (x !! "_id"); eexists; (split; [reflexivity | apply healthy_mk]).
Qed.

Lemma post_healthy (b : value) w k :
  healthy w -> last_sequence w = Some k -> complete b = true ->
  exists w', post (Some b) w = (json 201 (VObj {[ "id" := VNum (k + 1) ]}), w') /\
             healthy w'.
Proof.
  intros Hw Hk Hb.
  assert (b <> VNull) as Hnull by (intros ->; discriminate).
  unfold post, try_catch. rewrite (post_body_test b Hnull), Hb.
  destruct (getNextSequence_healthy w k Hw Hk) as (w1 & Hseq & Hw1).
  unfold bind at 1. rewrite Hseq.
  destruct Hw1 as [[d1 Hd1] Hf1].
  unfold bind at 1. rewrite (getDb_connected w1 d1 Hd1).
  destruct (insertOne_healthy
    (JS.object [("id", Some (VNum (k + 1))); ("firstName", JS.get b "firstName");
                ("lastName", JS.get b "lastName"); ("email", JS.get b "email");
                ("favoriteColor", JS.get b "favoriteColor");
                ("birthday", JS.get b "birthday")]) w1)
    as (w2 & Hins & Hw2); [by split; eauto|].
  unfold bind. rewrite Hins. unfold ret. eauto.
Qed.

Lemma put_healthy id n (b : jsval) w d c :
  db w = Some d -> faults w = [] ->
  JS.parseInt id = JS.Num n ->
  stored_under n (coll d "contacts") = Some c ->
  put id b w =
    (json 200 (VObj (Mongo.set_fields (delete "_id" (delete "id" (JS.spread b))) c)),
     mkWorld
       (Some (<["contacts" :=
                 Mongo.update_first (Mongo.NumIs "id" n)
                   (Mongo.set_fields (delete "_id" (delete "id" (JS.spread b))))
                   (coll d "contacts")]> d))
       [] (next_oid w)).
Proof.
  intros Hd Hf Hid Hc. unfold put, try_catch, put_body. rewrite Hid.
  unfold bind at 1. rewrite (getDb_connected w d Hd).
  unfold bind at 1. rewrite (findOne_healthy _ _ w d Hd Hf).
  unfold stored_under in Hc. rewrite Hc.
  unfold bind at 1. rewrite (getDb_connected w d Hd).
  unfold bind at 1. unfold Mongo.updateOne_set.
  rewrite (call_healthy _ w d Hd Hf).
  unfold bind at 1. unfold getDb at 1. simpl db.
  unfold bind. unfold Mongo.findOne. rewrite call_healthy with (d := <["contacts" := _]> d)
    by done.
  rewrite coll_insert_eq.
  rewrite (find_update_first _ _ _ c Hc).
  - reflexivity.
  - apply find_some in Hc as [_ Hm]. apply matches_id in Hm. apply matches_id.
    unfold contact_id in *.
    destruct (kept_set_fields (JS.spread b) c) as [Hkept _].
    by rewrite Hkept.
Qed.

Lemma delete_healthy id n w d :
  db w = Some d -> faults w = [] ->
  JS.parseInt id = JS.Num n ->
  delete_one id w =
    (if (Mongo.delete_first (Mongo.NumIs "id" n) (coll d "contacts")).2 =? 0
     then json 404 (error_body "Contact not found")
     else json 200 (VObj {[ "message" := VStr "Contact deleted successfully" ]}),
     mkWorld
       (Some (<["contacts" :=
                 (Mongo.delete_first (Mongo.NumIs "id" n) (coll d "contacts")).1]> d))
       [] (next_oid w)).
Proof.
  intros Hd Hf Hid. unfold delete_one, try_catch, delete_body. rewrite Hid.
  unfold bind at 1. rewrite (getDb_connected w d Hd).
  unfold bind. unfold Mongo.deleteOne. rewrite (call_healthy _ w d Hd Hf).
  destruct (Mongo.delete_first _ _) as [c' k]. simpl.
  by destruct (k =? 0).
Qed.

End Healthy.

Section DeleteFirst.

Implicit Types (c : collection) (n : Z).

Lemma delete_first_absent n c :
  n ∉ ids c -> Mongo.delete_first (Mongo.NumIs "id" n) c = (c, 0).
Proof.
  induction c as [|x c IH]; [done|]. rewrite ids_cons. intros Hn. cbn [Mongo.delete_first].
  destruct (Mongo.matches _ x) eqn:Hx.
  - apply matches_id in Hx. rewrite Hx in Hn. exfalso. apply Hn. left.
  - rewrite IH; [done|]. destruct (contact_id x); [|done].
    by apply not_elem_of_cons in Hn as [_ ?].
Qed.

Lemma delete_first_count n c :
  (Mongo.delete_first (Mongo.NumIs "id" n) c).2 = 0 -> n ∉ ids c.
Proof.
  induction c as [|x c IH]; [intros _; apply not_elem_of_nil|].
  rewrite ids_cons. cbn [Mongo.delete_first].
  destruct (Mongo.matches _ x) eqn:Hx; [done|].
  destruct (Mongo.delete_first _ c) as [c' k]. cbn [fst snd] in *. intros ->.
  assert (contact_id x <> Some n) as Hne.
  { intros Hid%matches_id. congruence. }
  destruct (contact_id x) as [m|]; [|by apply IH].
  apply not_elem_of_cons. split; [congruence | by apply IH].
Qed.

(** With unique ids, deleting by id leaves no contact with that id. *)
Lemma delete_first_gone n c :
  unique_ids c -> n ∉ ids (Mongo.delete_first (Mongo.NumIs "id" n) c).1.
Proof.
  unfold unique_ids. induction c as [|x c IH]; [intros _; apply not_elem_of_nil|].
  rewrite ids_cons. cbn [Mongo.delete_first].
  destruct (Mongo.matches _ x) eqn:Hx.
  - apply matches_id in Hx. rewrite Hx. cbn [fst snd].
    by intros [? _]%NoDup_cons.
  - assert (contact_id x <> Some n) as Hne.
    { intros Hid%matches_id. congruence. }
    destruct (Mongo.delete_first _ c) as [c' k]. cbn [fst snd] in *.
    rewrite ids_cons. destruct (contact_id x) as [m|].
    + intros [_ Hnd]%NoDup_cons. apply not_elem_of_cons.
      split; [congruence | by apply IH].
    + apply IH.
Qed.

End DeleteFirst.

(** * PUT and DELETE: specified behaviour *)

(** C3: whatever the body of a PUT /contacts/:id holds, [id] and [_id]
    included, and however the request ends, every stored contact keeps its
    [id] and its [_id]; a field changes only if the body names it; and the
    counters are untouched. *)
Theorem put_keeps_identifiers (id : string) (b : jsval) (w : World) :
  Forall2
    (fun x x' : doc =>
       x' !! "id" = x !! "id" /\ x' !! "_id" = x !! "_id" /\
       forall k, JS.spread b !! k = None -> x' !! k = x !! k)
    (stored w "contacts") (stored (put id b w).2 "contacts") /\
  stored (put id b w).2 "counters" = stored w "counters".
Proof.
  destruct (put_effect id b w) as [Hcounters Hcontacts]. split; [|done].
  exact Hcontacts.
Qed.

(** A client that sends its own [id] and [_id] along with a new email. *)
Example put_own_identifiers :
  let b := VObj {[ "id" := VNum 99; "_id" := VStr "mine"; "email" := VStr "new" ]} in
  stored (put "12" (Some b) with_twelve).2 "contacts"
  = [ <["email" := VStr "new"]> twelve ].
Proof. vm_compute. reflexivity. Qed.

(** C7: on a healthy world, a PUT /contacts/:id whose id reads as [n],
    with a contact [c] stored under [n], answers 200 with a contact [c']
    that is the one stored under [n] afterwards; [c'] has the body's value
    in every field the body names other than [id] and [_id], and the value
    [c] had in every other field. *)
Theorem put_updates (id : string) (n : Z) (b : jsval) (w : World) (c : doc) :
  healthy w ->
  JS.parseInt id = JS.Num n ->
  stored_under n (stored w "contacts") = Some c ->
  exists c' : doc,
    (put id b w).1 = json 200 (VObj c') /\
    stored_under n (stored (put id b w).2 "contacts") = Some c' /\
    (forall k v, k <> "id" -> k <> "_id" ->
                 JS.spread b !! k = Some v -> c' !! k = Some v) /\
    (forall k, k = "id" \/ k = "_id" \/ JS.spread b !! k = None ->
               c' !! k = c !! k).
Proof.
  intros [[d Hd] Hf] Hid Hc. rewrite (stored_Some _ _ _ Hd) in Hc.
  rewrite (put_healthy id n b w d c Hd Hf Hid Hc). simpl.
  eexists. split; [reflexivity|].
  assert (Hm : Mongo.matches (Mongo.NumIs "id" n)
                 (Mongo.set_fields (delete "_id" (delete "id" (JS.spread b))) c)
               = true).
  { apply find_some in Hc as [_ Hm]. apply matches_id in Hm. apply matches_id.
    unfold contact_id in *.
    destruct (kept_set_fields (JS.spread b) c) as [Hkept _]. by rewrite Hkept. }
  split; [|split].
  - unfold stored_under, stored. simpl. rewrite coll_insert_eq.
    by apply find_update_first.
  - intros k v Hk1 Hk2 Hv. unfold Mongo.set_fields.
    apply lookup_union_Some_l. by rewrite !lookup_delete_ne.
  - intros k Hk. destruct (kept_set_fields (JS.spread b) c) as (H1 & H2 & H3).
    destruct Hk as [->|[->|Hk]]; auto.
Qed.

Lemma put_updates_witness :
  (put "12" (Some (VObj {[ "email" := VStr "new"; "id" := VNum 99 ]})) with_twelve).1
  = json 200 (VObj (<["email" := VStr "new"]> twelve)).
Proof.
  assert (Hh : healthy with_twelve) by (split; [by eexists | reflexivity]).
  destruct (put_updates "12" 12
              (Some (VObj {[ "email" := VStr "new"; "id" := VNum 99 ]}))
              with_twelve twelve Hh eq_refl eq_refl) as (c' & Hresp & _).
  rewrite Hresp. vm_compute in Hresp. injection Hresp as <-.
  vm_compute. reflexivity.
Defined.

(** C4: on a healthy world whose contacts have unique ids, when
    DELETE /contacts/:id succeeds for the id [n], no contact with id [n] is
    left; the same DELETE sent again answers 404 with
    [{error: "Contact not found"}] and changes nothing; and so it does in
    any later healthy state in which no contact with id [n] exists. *)
Theorem delete_twice (id : string) (n : Z) (w : World) :
  healthy w ->
  unique_ids (stored w "contacts") ->
  JS.parseInt id = JS.Num n ->
  status (delete_one id w).1 = 200 ->
  (n ∉ ids (stored (delete_one id w).2 "contacts")) /\
  delete_one id (delete_one id w).2
    = (json 404 (error_body "Contact not found"), (delete_one id w).2) /\
  (forall w2, healthy w2 -> n ∉ ids (stored w2 "contacts") ->
     (delete_one id w2).1 = json 404 (error_body "Contact not found") /\
     (forall name, stored (delete_one id w2).2 name = stored w2 name)).
Proof.
  intros [[d Hd] Hf] Huniq Hid H200.
  rewrite (stored_Some _ _ _ Hd) in Huniq.
  pose proof (delete_first_gone n _ Huniq) as Hgone.
  rewrite (delete_healthy id n w d Hd Hf Hid). simpl.
  split; [|split].
  - unfold stored. simpl. by rewrite coll_insert_eq.
  - erewrite delete_healthy; [|reflexivity|reflexivity|exact Hid]. simpl.
    rewrite coll_insert_eq, (delete_first_absent n _ Hgone). simpl.
    by rewrite insert_insert_eq.
  - intros w2 [[d2 Hd2] Hf2] Habsent.
    rewrite (stored_Some _ _ _ Hd2) in Habsent.
    rewrite (delete_healthy id n w2 d2 Hd2 Hf2 Hid).
    rewrite (delete_first_absent n _ Habsent). simpl. split; [done|].
    intros name. unfold stored. simpl. rewrite Hd2.
    destruct (decide (name = "contacts")) as [->|Hne].
    + by rewrite coll_insert_eq.
    + by rewrite coll_insert_ne.
Qed.

Lemma delete_twice_witness :
  status (delete_one "12" with_twelve).1 = 200 /\
  status (delete_one "12" (delete_one "12" with_twelve).2).1 = 404.
Proof.
  split; [reflexivity|].
  assert (Hh : healthy with_twelve) by (split; [by eexists | reflexivity]).
  assert (Hu : unique_ids (stored with_twelve "contacts")).
  { unfold unique_ids. vm_compute. apply NoDup_singleton. }
  destruct (delete_twice "12" 12 with_twelve Hh Hu eq_refl eq_refl)
    as (_ & Hagain & _).
  rewrite Hagain. reflexivity.
Defined.

(** * POST: specified behaviour *)

(** C6, as stated, fails in its last part: a body in which all five
    required fields are present, one of them as the empty string, is
    answered with 400 and not with 201. *)
Lemma post_present_but_empty_counterexample :
  all_present (VObj (<["email" := VStr ""]> ada)) = true /\
  healthy fresh /\
  post (Some (VObj (<["email" := VStr ""]> ada))) fresh
    = (json 400 (error_body "All fields are required"), fresh).
Proof.
  split; [vm_compute; reflexivity|].
  split; [split; [by eexists | reflexivity]|].
  vm_compute. reflexivity.
Qed.

(** C6, amended: for every parsed request body of POST /contacts (any value
    but null), if one of the five required fields is missing or falsy the
    handler answers 400 with [{error: "All fields are required"}] and the
    world, contacts and counters included, stays as it was; if all five are
    truthy then, on a healthy world whose counter stands at [k], it answers
    201 with the body [{id: k + 1}]. *)
Theorem post_validation (b : value) (w : World) :
  b <> VNull ->
  (forall f, f ∈ required -> JS.truthy (JS.get b f) = false ->
     post (Some b) w = (json 400 (error_body "All fields are required"), w)) /\
  (complete b = true -> healthy w ->
     forall k, last_sequence w = Some k ->
       (post (Some b) w).1 = json 201 (VObj {[ "id" := VNum (k + 1) ]})).
Proof.
  intros Hb. split.
  - intros f Hf Hfalsy. apply post_incomplete; [done|].
    by apply (falsy_incomplete b f).
  - intros Hc Hw k Hk.
    destruct (post_healthy b w k Hw Hk Hc) as (w' & Hpost & _).
    by rewrite Hpost.
Qed.

Lemma post_validation_witness :
  post (Some (VObj (delete "birthday" ada))) fresh
    = (json 400 (error_body "All fields are required"), fresh) /\
  (post (Some (VObj ada)) fresh).1 = json 201 (VObj {[ "id" := VNum 1 ]}).
Proof.
  split.
  - apply (post_validation (VObj (delete "birthday" ada)) fresh) with "birthday".
    + discriminate.
    + vm_compute. do 4 right. left.
    + reflexivity.
  - apply (post_validation (VObj ada) fresh) with (k := 0).
    + discriminate.
    + reflexivity.
    + split; [by eexists | reflexivity].
    + reflexivity.
Defined.

(** * Errors: specified behaviour *)

(** For every request as the router gets it, in every state of the world,
    the response has status 200 or 201, or else its status is 400, 404 or
    500 and its body is [{error: msg}] for a string [msg]; and whenever the
    handler's [try] block throws, the response is 500 with the thrown
    message in [{error: msg}]. *)
Lemma errors_are_json (r : Request) (w : World) :
  (status (handle r w).1 = 200 \/
   status (handle r w).1 = 201 \/
   ((status (handle r w).1 = 400 \/ status (handle r w).1 = 404 \/
     status (handle r w).1 = 500) /\
    exists msg, body (handle r w).1 = error_body msg)) /\
  (forall msg w', handler_body r w = (Throw msg, w') ->
     handle r w = (json 500 (error_body msg), w')).
Proof.
  split.
  - destruct (handle_status r w) as [H|[[H _]|H]]; auto.
  - intros msg w' H. rewrite handle_try_catch. unfold try_catch. by rewrite H.
Qed.

(** Three ways to a 500: no connection, a rejected driver call, and a body
    that cannot be destructured. *)
Example errors_500 :
  handle GET_all (mkWorld None [] 0)
    = (json 500 (error_body "Database not connected"), mkWorld None [] 0) /\
  handle (DELETE "12") (mkWorld (db with_twelve) [Some "connection reset"] 1)
    = (json 500 (error_body "connection reset"), with_twelve) /\
  status (handle (POST None) fresh).1 = 500.
Proof. repeat split. Qed.

(** * The invariant of the data model *)

Section Invariant.

Implicit Types (c : collection).

Lemma ids_kept (u : doc) c c' : Forall2 (kept u) c c' -> ids c' = ids c.
Proof.
  induction 1 as [|x x' c c' (Hid & _ & _) _ IH]; [done|].
  rewrite !ids_cons, IH. unfold contact_id. by rewrite Hid.
Qed.

Lemma ids_sublist c c' : c' `sublist_of` c -> ids c' `sublist_of` ids c.
Proof.
  induction 1 as [|x c' c _ IH|x c' c _ IH]; [done| |].
  - rewrite !ids_cons. destruct (contact_id x); [by apply sublist_skip | done].
  - rewrite ids_cons. destruct (contact_id x); [by apply sublist_cons | done].
Qed.

Lemma ids_snoc c (x : doc) n :
  contact_id x = Some n -> ids (c ++ [x])%list = (ids c ++ [n])%list.
Proof. intros Hx. unfold ids. rewrite omap_app. simpl. by rewrite Hx. Qed.

Lemma consistent_ids w w' :
  ids (stored w' "contacts") = ids (stored w "contacts") ->
  stored w' "counters" = stored w "counters" ->
  consistent w -> consistent w'.
Proof.
  intros Hc Hs. unfold consistent, unique_ids.
  by rewrite Hc, (last_sequence_stored _ _ Hs).
Qed.

Lemma consistent_stored w w' :
  stored w' "contacts" = stored w "contacts" ->
  stored w' "counters" = stored w "counters" ->
  consistent w -> consistent w'.
Proof. intros Hc Hs. apply consistent_ids; [by rewrite Hc | done]. Qed.

Lemma consistent_fewer w w' :
  stored w' "contacts" `sublist_of` stored w "contacts" ->
  stored w' "counters" = stored w "counters" ->
  consistent w -> consistent w'.
Proof.
  intros Hsub%ids_sublist Hs (Hu & k & Hk & Hle). split.
  - unfold unique_ids in *. by eapply sublist_NoDup.
  - exists k. rewrite (last_sequence_stored _ _ Hs). split; [done|].
    rewrite Forall_forall in *. intros n Hn. apply Hle.
    by eapply elem_of_sublist.
Qed.

Lemma handle_consistent r w : consistent w -> consistent (handle r w).2.
Proof.
  intros Hw. destruct r as [|id|b|id b|id]; simpl.
  - apply (consistent_stored w); [| |done]; apply stored_db, get_all_db.
  - apply (consistent_stored w); [| |done]; apply stored_db, get_one_db.
  - destruct (post b w) as [resp w'] eqn:E. simpl.
    apply post_cases in E
      as [(_ & Hc & Hs)|(k & Hk & Hk' & [[_ Hc]|(c & _ & Hid & Hc)])].
    + by apply (consistent_stored w).
    + destruct Hw as (Hu & k0 & Hk0 & Hle).
      assert (k0 = k) as -> by congruence.
      split; [by rewrite Hc|]. exists (k + 1). split; [done|]. rewrite Hc.
      eapply Forall_impl; [exact Hle|]. intros n Hn. simpl in Hn. lia.
    + destruct Hw as (Hu & k0 & Hk0 & Hle).
      assert (k0 = k) as -> by congruence.
      unfold consistent, unique_ids in *. rewrite Hc, (ids_snoc _ _ _ Hid).
      split.
      * apply NoDup_app. split; [done|]. split; [|apply NoDup_singleton].
        intros n Hn ->%list_elem_of_singleton.
        rewrite Forall_forall in Hle. specialize (Hle _ Hn). simpl in Hle. lia.
      * exists (k + 1). split; [done|]. apply Forall_app. split.
        -- eapply Forall_impl; [exact Hle|]. intros n Hn. simpl in Hn. lia.
        -- constructor; [lia | constructor].
  - destruct (put_effect id b w) as [Hs Hkept].
    apply (consistent_ids w); [|done|done]. by apply (ids_kept (JS.spread b)).
  - destruct (delete_effect id w) as [Hs Hsub].
    by apply (consistent_fewer w).
Qed.

End Invariant.

Section Preservation.

Context (R : relation World) `{!Reflexive R, !Transitive R}.

Lemma preserves_ret {A} (a : A) : preserves R (ret a).
Proof. intros w r w' [= _ <-]. reflexivity. Qed.

Lemma preserves_throw {A} msg : preserves R (throw (A:=A) msg).
Proof. intros w r w' [= _ <-]. reflexivity. Qed.

Lemma preserves_getDb : preserves R getDb.
Proof. intros w r w' ->%getDb_inv. reflexivity. Qed.

Lemma preserves_bind {A B} (m : M A) (k : A -> M B) :
  preserves R m -> (forall a, preserves R (k a)) -> preserves R (bind m k).
Proof.
  intros Hm Hk w r w'. unfold bind.
  destruct (m w) as [[a|msg] w1] eqn:E.
  - intros H. transitivity w1; [by eapply Hm | by eapply Hk].
  - intros [= <- <-]. by eapply Hm.
Qed.

Lemma preserves_handle :
  (forall A (op : Database -> N -> outcome A * Database * N),
     preserves R (Mongo.call op)) ->
  forall r w, R w (handle r w).2.
Proof.
  intros Hcall r w. rewrite handle_try_catch.
  apply try_catch_rel; try apply _.
  assert (Hbody : preserves R (handler_body r)); [|intros r0 w'; apply Hbody].
  destruct r as [|id|b|id b|id]; simpl.
  - unfold get_all_body.
    repeat (apply preserves_bind; [first [apply preserves_getDb | apply Hcall]|intros ?]).
    apply preserves_ret.
  - unfold get_one_body. destruct (JS.parseInt id); [apply preserves_ret|].
    repeat (apply preserves_bind; [first [apply preserves_getDb | apply Hcall]|intros ?]).
    destruct a0; apply preserves_ret.
  - unfold post_body. apply preserves_bind.
    { unfold destructure. destruct b as [[]|];
        first [apply preserves_ret | apply preserves_throw]. }
    intros v. destruct (_ || _); [apply preserves_ret|].
    apply preserves_bind.
    { unfold getNextSequence.
      repeat (apply preserves_bind; [first [apply preserves_getDb | apply Hcall]|intros ?]).
      apply preserves_ret. }
    intros seq.
    repeat (apply preserves_bind; [first [apply preserves_getDb | apply Hcall]|intros ?]).
    apply preserves_ret.
  - unfold put_body. destruct (JS.parseInt id); [apply preserves_ret|].
    repeat (apply preserves_bind; [first [apply preserves_getDb | apply Hcall]|intros ?]).
    destruct a0; [|apply preserves_ret].
    repeat (apply preserves_bind; [first [apply preserves_getDb | apply Hcall]|intros ?]).
    apply preserves_ret.
  - unfold delete_body. destruct (JS.parseInt id); [apply preserves_ret|].
    repeat (apply preserves_bind; [first [apply preserves_getDb | apply Hcall]|intros ?]).
    destruct (_ =? _); apply preserves_ret.
Qed.

End Preservation.

Section Runs.

Global Instance stays_healthy_refl : Reflexive stays_healthy.
Proof. intros w Hw. exact Hw. Qed.

Global Instance stays_healthy_trans : Transitive stays_healthy.
Proof. intros w1 w2 w3 H1 H2 Hw. by apply H2, H1. Qed.

Lemma call_stays_healthy A (op : Database -> N -> outcome A * Database * N) :
  preserves stays_healthy (Mongo.call op).
Proof.
  intros w r w' H [[d Hd] Hf]. rewrite (call_healthy op w d Hd Hf) in H.
  destruct (op d (next_oid w)) as [[r0 d'] o']. injection H as _ <-.
  apply healthy_mk.
Qed.

Lemma handle_healthy r w : healthy w -> healthy (handle r w).2.
Proof.
  apply (preserves_handle stays_healthy); try apply _.
  apply call_stays_healthy.
Qed.

Lemma serve_healthy rs : forall w, healthy w -> healthy (serve rs w).2.
Proof.
  induction rs as [|r rs IH]; intros w Hw; [done|].
  rewrite serve_cons. simpl. by apply IH, handle_healthy.
Qed.

Lemma serve_consistent rs : forall w, consistent w -> consistent (serve rs w).2.
Proof.
  induction rs as [|r rs IH]; intros w Hw; [done|].
  rewrite serve_cons. simpl. by apply IH, handle_consistent.
Qed.

Lemma fresh_consistent : consistent fresh.
Proof.
  split; [apply NoDup_nil_2|]. exists 0. split; [done | constructor].
Qed.

(** Whatever has been served since the empty database, ids are unique. *)
Lemma served_unique_ids rs : unique_ids (stored (serve rs fresh).2 "contacts").
Proof. apply (serve_consistent rs fresh fresh_consistent). Qed.

(** An id at or below the counter that no contact carries is never given
    to a contact again. *)
Lemma handle_absent n r w :
  (exists k, last_sequence w = Some k /\ n <= k) ->
  n ∉ ids (stored w "contacts") ->
  (exists k, last_sequence (handle r w).2 = Some k /\ n <= k) /\
  n ∉ ids (stored (handle r w).2 "contacts").
Proof.
  intros (k & Hk & Hn) Habs.
  assert (Hsame : forall w', stored w' "counters" = stored w "counters" ->
            exists k', last_sequence w' = Some k' /\ n <= k').
  { intros w' Hs. exists k. by rewrite (last_sequence_stored _ _ Hs). }
  destruct r as [|id|b|id b|id]; simpl.
  - pose proof (get_all_db w) as Hdb.
    split; [by apply Hsame, stored_db|]. by rewrite (stored_db _ _ _ Hdb).
  - pose proof (get_one_db id w) as Hdb.
    split; [by apply Hsame, stored_db|]. by rewrite (stored_db _ _ _ Hdb).
  - destruct (post b w) as [resp w'] eqn:E. simpl.
    apply post_cases in E
      as [(_ & Hc & Hs)|(k0 & Hk0 & Hk' & [[_ Hc]|(c & _ & Hid & Hc)])].
    + split; [by apply Hsame|]. by rewrite Hc.
    + assert (k0 = k) as -> by congruence.
      split; [exists (k + 1); split; [done | lia]|]. by rewrite Hc.
    + assert (k0 = k) as -> by congruence.
      split; [exists (k + 1); split; [done | lia]|].
      rewrite Hc, (ids_snoc _ _ _ Hid). rewrite not_elem_of_app.
      split; [done|]. intros ->%list_elem_of_singleton. lia.
  - destruct (put_effect id b w) as [Hs Hkept].
    split; [by apply Hsame|]. by rewrite (ids_kept _ _ _ Hkept).
  - destruct (delete_effect id w) as [Hs Hsub].
    split; [by apply Hsame|]. intros Hin. apply Habs.
    eapply elem_of_sublist; [exact Hin | by apply ids_sublist].
Qed.

Lemma serve_absent n rs : forall w,
  (exists k, last_sequence w = Some k /\ n <= k) ->
  n ∉ ids (stored w "contacts") ->
  n ∉ ids (stored (serve rs w).2 "contacts").
Proof.
  induction rs as [|r rs IH]; intros w Hk Habs; [done|].
  rewrite serve_cons. simpl.
  destruct (handle_absent n r w Hk Habs) as [Hk' Habs']. by apply IH.
Qed.

(** X20: on a consistent healthy world a deleted id stays deleted: whatever
    is served after a successful DELETE, POSTs included, the same DELETE
    then answers 404, because the counter never goes back. *)
Lemma delete_is_final id n rs w :
  healthy w -> consistent w ->
  JS.parseInt id = JS.Num n ->
  status (delete_one id w).1 = 200 ->
  (delete_one id (serve rs (delete_one id w).2).2).1
    = json 404 (error_body "Contact not found").
Proof.
  intros Hw Hc Hid H200.
  assert (Hw1 : healthy (delete_one id w).2) by apply (handle_healthy (DELETE id) w Hw).
  assert (Hc1 : consistent (delete_one id w).2) by apply (handle_consistent (DELETE id) w Hc).
  assert (Hw2 : healthy (serve rs (delete_one id w).2).2) by by apply serve_healthy.
  destruct Hw as [[d Hd] Hf]. destruct Hw2 as [[d2 Hd2] Hf2].
  rewrite (delete_healthy id n _ d2 Hd2 Hf2 Hid). simpl.
  assert (Hgone : n ∉ ids (stored (delete_one id w).2 "contacts")).
  { rewrite (delete_healthy id n w d Hd Hf Hid). unfold stored. simpl.
    rewrite coll_insert_eq. apply delete_first_gone.
    destruct Hc as [Hu _]. by rewrite (stored_Some _ _ _ Hd) in Hu. }
  assert (Hwas : n ∈ ids (stored w "contacts")).
  { destruct (decide (n ∈ ids (stored w "contacts"))) as [|Hno]; [done|].
    rewrite (delete_healthy id n w d Hd Hf Hid) in H200.
    rewrite (stored_Some _ _ _ Hd) in Hno.
    rewrite (delete_first_absent n _ Hno) in H200. discriminate. }
  assert (Hbound : exists k, last_sequence (delete_one id w).2 = Some k /\ n <= k).
  { destruct (delete_effect id w) as [Hs _].
    destruct Hc as (_ & k & Hk & Hle). exists k.
    rewrite (last_sequence_stored _ _ Hs). split; [done|].
    rewrite Forall_forall in Hle. by apply Hle. }
  pose proof (serve_absent n rs _ Hbound Hgone) as Habs.
  rewrite (stored_Some _ _ _ Hd2) in Habs.
  by rewrite (delete_first_absent n _ Habs).
Qed.

End Runs.

(** * Beyond the specified behaviour: reading *)

Section DriverCalls.

Context {A : Type} (op : Database -> N -> outcome A * Database * N).

Lemma call_fault w msg fs :
  faults w = Some msg :: fs ->
  Mongo.call op w = (Throw msg, mkWorld (db w) fs (next_oid w)).
Proof. intros Hf. unfold Mongo.call. by rewrite Hf. Qed.

Lemma call_pass w d fs :
  db w = Some d -> faults w = None :: fs ->
  Mongo.call op w =
    (let '(r, d', o') := op d (next_oid w) in (r, mkWorld (Some d') fs o')).
Proof. intros Hd Hf. unfold Mongo.call. by rewrite Hf, Hd. Qed.

End DriverCalls.

Lemma getDb_disconnected w :
  db w = None -> getDb w = (Throw "Database not connected", w).
Proof. intros Hd. unfold getDb. by rewrite Hd. Qed.

(** X1: on a healthy world GET /contacts answers 200 with the array of all
    stored contacts, in the order in which they are stored, and leaves the
    world as it was. *)
Theorem get_all_lists (w : World) :
  healthy w ->
  get_all w = (json 200 (VArr (VObj <$> stored w "contacts")), w).
Proof.
  intros [[d Hd] Hf]. unfold get_all, try_catch, get_all_body.
  unfold bind at 1. rewrite (getDb_connected w d Hd).
  unfold bind, Mongo.find_toArray. rewrite (call_healthy _ w d Hd Hf).
  rewrite (world_eta w d Hd Hf), (stored_Some w d _ Hd). reflexivity.
Qed.

Lemma get_all_lists_witness :
  get_all three_contacts
  = (json 200 (VArr [VObj (contact_numbered 0 1); VObj (contact_numbered 1 2);
                     VObj (contact_numbered 2 3)]), three_contacts).
Proof.
  apply (get_all_lists three_contacts). split; [by eexists | reflexivity].
Defined.

(** X2: the two reading endpoints never write: whatever the id, the state
    of the world and the outcome, GET /contacts and GET /contacts/:id leave
    the database and the ObjectId supply exactly as they were. *)
Theorem reads_write_nothing (id : string) (w : World) :
  db (get_all w).2 = db w /\ next_oid (get_all w).2 = next_oid w /\
  db (get_one id w).2 = db w /\ next_oid (get_one id w).2 = next_oid w.
Proof.
  assert (Hread : forall A (g : Database -> A) w0 r w',
            Mongo.call (fun d o => (Ok (g d), d, o)) w0 = (r, w') ->
            next_oid w' = next_oid w0).
  { intros A g w0 r w'. unfold Mongo.call.
    destruct (faults w0) as [|[msg|] fs], (db w0); by intros [= _ <-]. }
  split; [apply get_all_db|]. split; [|split; [apply get_one_db|]].
  - unfold get_all, try_catch, get_all_body, bind.
    destruct (getDb w) as [[[]|msg] w1] eqn:Hg; apply getDb_inv in Hg as ->;
      [|done].
    destruct (Mongo.find_toArray "contacts" w) as [[c|msg] w2] eqn:Hc;
      by apply Hread in Hc.
  - unfold get_one, try_catch, get_one_body.
    destruct (JS.parseInt id) as [|n]; [done|]. unfold bind.
    destruct (getDb w) as [[[]|msg] w1] eqn:Hg; apply getDb_inv in Hg as ->;
      [|done].
    destruct (Mongo.findOne "contacts" _ w) as [[[c|]|msg] w2] eqn:Hc;
      by apply Hread in Hc.
Qed.

(** * Beyond the specified behaviour: failures *)

(** X3: before [connectToDatabase] has set [db], every request that gets
    past the checks of its input answers 500 with
    [{error: "Database not connected"}], the message [getDb] throws, and
    the world stays as it is: GET /contacts, the three requests by a
    readable id, and a POST with a complete body. *)
Theorem not_connected (w : World) :
  db w = None ->
  get_all w = (json 500 (error_body "Database not connected"), w) /\
  (forall id n b, JS.parseInt id = JS.Num n ->
     get_one id w = (json 500 (error_body "Database not connected"), w) /\
     put id b w = (json 500 (error_body "Database not connected"), w) /\
     delete_one id w = (json 500 (error_body "Database not connected"), w)) /\
  (forall b, complete b = true ->
     post (Some b) w = (json 500 (error_body "Database not connected"), w)).
Proof.
  intros Hd. pose proof (getDb_disconnected w Hd) as Hg.
  split; [|split].
  - unfold get_all, try_catch, get_all_body, bind. by rewrite Hg.
  - intros id n b Hid. split; [|split].
    + unfold get_one, try_catch, get_one_body, bind. by rewrite Hid, Hg.
    + unfold put, try_catch, put_body, bind. by rewrite Hid, Hg.
    + unfold delete_one, try_catch, delete_body, bind. by rewrite Hid, Hg.
  - intros b Hb.
    assert (b <> VNull) as Hnull by (intros ->; discriminate).
    unfold post, try_catch. rewrite (post_body_test b Hnull), Hb.
    unfold getNextSequence, bind. by rewrite Hg.
Qed.

Lemma not_connected_witness :
  get_all (mkWorld None [] 0)
    = (json 500 (error_body "Database not connected"), mkWorld None [] 0) /\
  post (Some (VObj ada)) (mkWorld None [] 0)
    = (json 500 (error_body "Database not connected"), mkWorld None [] 0).
Proof.
  destruct (not_connected (mkWorld None [] 0) eq_refl) as (Hall & _ & Hpost).
  split; [exact Hall|]. apply Hpost. reflexivity.
Defined.

(** X4: when the first call a handler makes to the driver rejects with the
    message [msg], the handler answers 500 with [{error: msg}] and the
    database is exactly as before: nothing is stored, changed or removed,
    and the counter has not moved.  This holds for GET /contacts, for the
    three requests by a readable id, and for a POST with a complete
    body. *)
Theorem first_call_rejected (w : World) (d : Database) (msg : string)
    (fs : list (option string)) :
  db w = Some d ->
  faults w = Some msg :: fs ->
  get_all w = (json 500 (error_body msg), mkWorld (Some d) fs (next_oid w)) /\
  (forall id n b, JS.parseInt id = JS.Num n ->
     get_one id w = (json 500 (error_body msg), mkWorld (Some d) fs (next_oid w)) /\
     put id b w = (json 500 (error_body msg), mkWorld (Some d) fs (next_oid w)) /\
     delete_one id w
       = (json 500 (error_body msg), mkWorld (Some d) fs (next_oid w))) /\
  (forall b, complete b = true ->
     post (Some b) w = (json 500 (error_body msg), mkWorld (Some d) fs (next_oid w))).
Proof.
  intros Hd Hf. pose proof (getDb_connected w d Hd) as Hg.
  split; [|split].
  - unfold get_all, try_catch, get_all_body, bind. rewrite Hg.
    unfold Mongo.find_toArray. by rewrite (call_fault _ w msg fs Hf), Hd.
  - intros id n b Hid. split; [|split].
    + unfold get_one, try_catch, get_one_body, bind. rewrite Hid, Hg.
      unfold Mongo.findOne. by rewrite (call_fault _ w msg fs Hf), Hd.
    + unfold put, try_catch, put_body, bind. rewrite Hid, Hg.
      unfold Mongo.findOne. by rewrite (call_fault _ w msg fs Hf), Hd.
    + unfold delete_one, try_catch, delete_body, bind. rewrite Hid, Hg.
      unfold Mongo.deleteOne. by rewrite (call_fault _ w msg fs Hf), Hd.
  - intros b Hb.
    assert (b <> VNull) as Hnull by (intros ->; discriminate).
    unfold post, try_catch. rewrite (post_body_test b Hnull), Hb.
    unfold getNextSequence, bind. rewrite Hg.
    unfold Mongo.findOneAndUpdate_inc.
    by rewrite (call_fault _ w msg fs Hf), Hd.
Qed.

Lemma first_call_rejected_witness :
  delete_one "12" (mkWorld (db with_twelve) [Some "socket closed"] 1)
    = (json 500 (error_body "socket closed"), with_twelve) /\
  post (Some (VObj ada)) (mkWorld (db with_twelve) [Some "socket closed"] 1)
    = (json 500 (error_body "socket closed"), with_twelve).
Proof.
  destruct (first_call_rejected
              (mkWorld (db with_twelve) [Some "socket closed"] 1)
              _ "socket closed" [] eq_refl eq_refl) as (_ & Hid & Hpost).
  split.
  - apply (Hid "12" 12 None). reflexivity.
  - apply Hpost. reflexivity.
Defined.

(** * Beyond the specified behaviour: creating *)

Section Creating.

Lemma new_contact_fields o n (b : value) :
  complete b = true ->
  exists v1 v2 v3 v4 v5,
    JS.get b "firstName" = Some v1 /\ JS.get b "lastName" = Some v2 /\
    JS.get b "email" = Some v3 /\ JS.get b "favoriteColor" = Some v4 /\
    JS.get b "birthday" = Some v5 /\
    new_contact o n b =
      <["_id" := VOid o]> (<["id" := VNum n]> (<["firstName" := v1]>
        (<["lastName" := v2]> (<["email" := v3]> (<["favoriteColor" := v4]>
          (<["birthday" := v5]> ∅)))))).
Proof.
  intros Hb.
  destruct (complete_get b "firstName" Hb) as (v1 & H1 & _);
    [unfold required; set_solver|].
  destruct (complete_get b "lastName" Hb) as (v2 & H2 & _);
    [unfold required; set_solver|].
  destruct (complete_get b "email" Hb) as (v3 & H3 & _);
    [unfold required; set_solver|].
  destruct (complete_get b "favoriteColor" Hb) as (v4 & H4 & _);
    [unfold required; set_solver|].
  destruct (complete_get b "birthday" Hb) as (v5 & H5 & _);
    [unfold required; set_solver|].
  exists v1, v2, v3, v4, v5. repeat (split; [done|]).
  unfold new_contact. by rewrite H1, H2, H3, H4, H5.
Qed.

Lemma contact_data_no_oid n (b : value) :
  complete b = true ->
  JS.object [("id", Some (VNum n)); ("firstName", JS.get b "firstName");
             ("lastName", JS.get b "lastName"); ("email", JS.get b "email");
             ("favoriteColor", JS.get b "favoriteColor");
             ("birthday", JS.get b "birthday")] !! "_id" = None.
Proof.
  intros Hb.
  destruct (new_contact_fields 0 n b Hb)
    as (v1 & v2 & v3 & v4 & v5 & -> & -> & -> & -> & -> & _).
  reflexivity.
Qed.

(** POST on a healthy world, with the world it leaves. *)
Lemma post_healthy_exact (b : value) w d k :
  db w = Some d -> faults w = [] ->
  sequence_of (coll d "counters") = Some k ->
  complete b = true ->
  exists counters',
    sequence_of counters' = Some (k + 1) /\
    post (Some b) w =
      (json 201 (VObj {[ "id" := VNum (k + 1) ]}),
       mkWorld
         (Some (<["contacts" :=
                   (coll d "contacts" ++ [new_contact (next_oid w) (k + 1) b])%list]>
                  (<["counters" := counters']> d)))
         [] (N.succ (next_oid w))).
Proof.
  intros Hd Hf Hk Hb.
  assert (b <> VNull) as Hnull by (intros ->; discriminate).
  unfold post, try_catch. rewrite (post_body_test b Hnull), Hb.
  unfold getNextSequence.
  unfold bind at 1. unfold bind at 1. rewrite (getDb_connected w d Hd).
  unfold bind at 1. unfold Mongo.findOneAndUpdate_inc.
  rewrite (call_healthy _ w d Hd Hf).
  pose proof (find_inc_contacts (coll d "counters")) as Hinc.
  destruct (Mongo.find_inc _ _ _ _) as [[new c']|msg]; [|congruence].
  destruct Hinc as (k' & Hk1 & Hnew & Hk2).
  assert (k' = k) as -> by congruence.
  exists c'. split; [done|].
  unfold ret at 1. rewrite Hnew.
  unfold bind at 1. unfold getDb at 1. cbn [db].
  unfold bind at 1. unfold Mongo.insertOne.
  rewrite call_healthy with (d := <["counters" := c']> d) by done.
  rewrite (contact_data_no_oid (k + 1) b Hb).
  cbn [next_oid]. rewrite coll_insert_ne by done. reflexivity.
Qed.

End Creating.

(** X5: what a successful POST /contacts stores.  On a healthy world whose
    counter stands at [k], a POST with a complete body appends exactly one
    document to the contacts, after all the others: it carries the id
    [k + 1], a fresh ObjectId as [_id], the body's values of the five
    required fields, and no other field.  The counter is left at [k + 1]
    and the world stays healthy. *)
Theorem post_stores (b : value) (k : Z) (w : World) :
  healthy w ->
  last_sequence w = Some k ->
  complete b = true ->
  stored (post (Some b) w).2 "contacts"
    = (stored w "contacts" ++ [new_contact (next_oid w) (k + 1) b])%list /\
  last_sequence (post (Some b) w).2 = Some (k + 1) /\
  healthy (post (Some b) w).2 /\
  new_contact (next_oid w) (k + 1) b !! "id" = Some (VNum (k + 1)) /\
  new_contact (next_oid w) (k + 1) b !! "_id" = Some (VOid (next_oid w)) /\
  (forall f, f ∈ required ->
     new_contact (next_oid w) (k + 1) b !! f = JS.get b f) /\
  (forall f, f ∉ "_id" :: "id" :: required ->
     new_contact (next_oid w) (k + 1) b !! f = None).
Proof.
  intros [[d Hd] Hf] Hk Hb.
  unfold last_sequence in Hk. rewrite (stored_Some _ _ _ Hd) in Hk.
  destruct (post_healthy_exact b w d k Hd Hf Hk Hb) as (c' & Hc' & ->).
  cbn [snd]. split; [|split; [|split]].
  - unfold stored. cbn [db]. by rewrite Hd, coll_insert_eq.
  - unfold last_sequence, stored. cbn [db].
    by rewrite coll_insert_ne, coll_insert_eq.
  - apply healthy_mk.
  - destruct (new_contact_fields (next_oid w) (k + 1) b Hb)
      as (v1 & v2 & v3 & v4 & v5 & H1 & H2 & H3 & H4 & H5 & ->).
    split; [done|]. split; [done|]. split.
    + intros f Hin. unfold required in Hin.
      repeat (apply elem_of_cons in Hin as [->|Hin]; [by simplify_map_eq|]).
      by apply elem_of_nil in Hin.
    + intros f Hout. unfold required in Hout.
      rewrite !not_elem_of_cons in Hout.
      destruct Hout as (? & ? & ? & ? & ? & ? & ? & _).
      by simplify_map_eq.
Qed.

Lemma post_stores_witness :
  stored (post (Some (VObj ada_and_more)) with_twelve).2 "contacts"
    = [twelve; new_contact 1 13 (VObj ada_and_more)] /\
  new_contact 1 13 (VObj ada_and_more) !! "admin" = None /\
  new_contact 1 13 (VObj ada_and_more) !! "id" = Some (VNum 13).
Proof.
  assert (Hh : healthy with_twelve) by (split; [by eexists | reflexivity]).
  destruct (post_stores (VObj ada_and_more) 12 with_twelve Hh eq_refl eq_refl)
    as (Hstored & _ & _ & Hid & _ & _ & Hnone).
  split; [exact Hstored|]. split; [|exact Hid].
  apply Hnone. vm_compute. intros Hin.
  repeat (apply elem_of_cons in Hin as [Heq|Hin]; [discriminate Heq|]).
  by apply elem_of_nil in Hin.
Defined.

(** X6: create, then read.  On a healthy world that satisfies the
    invariant of the data model, after a POST with a complete body the id it
    returned, written in decimal in the path, fetches exactly the document
    that was stored, and GET /contacts lists it last, after the contacts
    that were there before. *)
Theorem post_then_get (b : value) (k : Z) (w : World) :
  healthy w ->
  consistent w ->
  last_sequence w = Some k ->
  complete b = true ->
  (post (Some b) w).1 = json 201 (VObj {[ "id" := VNum (k + 1) ]}) /\
  get_one (JS.decimal (k + 1)) (post (Some b) w).2
    = (json 200 (VObj (new_contact (next_oid w) (k + 1) b)),
       (post (Some b) w).2) /\
  get_all (post (Some b) w).2
    = (json 200
         (VArr (VObj <$> (stored w "contacts"
                          ++ [new_contact (next_oid w) (k + 1) b])%list)),
       (post (Some b) w).2).
Proof.
  intros [[d Hd] Hf] Hcons Hk Hb.
  pose proof (handle_consistent (POST (Some b)) w Hcons) as [Huniq _].
  simpl in Huniq. revert Huniq.
  unfold last_sequence in Hk. rewrite (stored_Some _ _ _ Hd) in Hk.
  destruct (post_healthy_exact b w d k Hd Hf Hk Hb) as (c' & Hc' & ->).
  cbn [fst snd]. intros Huniq. split; [done|].
  set (w' := mkWorld _ _ _) in *.
  assert (Hstored : stored w' "contacts"
            = (coll d "contacts" ++ [new_contact (next_oid w) (k + 1) b])%list).
  { unfold stored, w'. cbn [db]. by rewrite coll_insert_eq. }
  split.
  - rewrite (get_one_healthy (JS.decimal (k + 1)) (k + 1) w' _
               (JSFacts.parseInt_decimal (k + 1)) eq_refl eq_refl).
    rewrite coll_insert_eq.
    rewrite (unique_ids_first (k + 1) _ (new_contact (next_oid w) (k + 1) b));
      [done | by rewrite <- Hstored | set_solver |].
    destruct (new_contact_fields (next_oid w) (k + 1) b Hb)
      as (v1 & v2 & v3 & v4 & v5 & _ & _ & _ & _ & _ & ->).
    reflexivity.
  - unfold get_all, try_catch, get_all_body.
    unfold bind at 1. unfold getDb at 1. cbn [db w'].
    unfold bind, Mongo.find_toArray. rewrite call_healthy with (d := _) by done.
    rewrite coll_insert_eq, (stored_Some w d _ Hd). reflexivity.
Qed.

Lemma post_then_get_witness :
  (get_one "13" (post (Some (VObj ada)) with_twelve).2).1
  = json 200 (VObj (new_contact 1 13 (VObj ada))).
Proof.
  assert (Hh : healthy with_twelve) by (split; [by eexists | reflexivity]).
  assert (Hc : consistent with_twelve).
  { split; [unfold unique_ids; vm_compute; apply NoDup_singleton|].
    exists 12. split; [reflexivity|]. vm_compute. repeat constructor.
    discriminate. }
  destruct (post_then_get (VObj ada) 12 with_twelve Hh Hc eq_refl eq_refl)
    as (_ & Hget & _).
  change "13" with (JS.decimal (12 + 1)). by rewrite Hget.
Defined.

(** X7: POST /contacts reads nothing of the body but the five required
    fields.  Two bodies that agree on these five get the same response and
    leave the same world, whatever else they hold ([id], [_id], further
    fields), in every state of the world. *)
Theorem post_reads_five_fields (b1 b2 : value) (w : World) :
  b1 <> VNull ->
  b2 <> VNull ->
  (forall f, f ∈ required -> JS.get b1 f = JS.get b2 f) ->
  post (Some b1) w = post (Some b2) w.
Proof.
  intros H1 H2 Hsame. unfold post.
  rewrite (post_body_test b1 H1), (post_body_test b2 H2).
  assert (F1 : JS.get b1 "firstName" = JS.get b2 "firstName")
    by (apply Hsame; unfold required; set_solver).
  assert (F2 : JS.get b1 "lastName" = JS.get b2 "lastName")
    by (apply Hsame; unfold required; set_solver).
  assert (F3 : JS.get b1 "email" = JS.get b2 "email")
    by (apply Hsame; unfold required; set_solver).
  assert (F4 : JS.get b1 "favoriteColor" = JS.get b2 "favoriteColor")
    by (apply Hsame; unfold required; set_solver).
  assert (F5 : JS.get b1 "birthday" = JS.get b2 "birthday")
    by (apply Hsame; unfold required; set_solver).
  unfold complete, required. cbn [forallb].
  rewrite F1, F2, F3, F4, F5. reflexivity.
Qed.

Lemma post_reads_five_fields_witness :
  post (Some (VObj ada_and_more)) with_twelve = post (Some (VObj ada)) with_twelve.
Proof.
  apply (post_reads_five_fields (VObj ada_and_more) (VObj ada) with_twelve).
  - discriminate.
  - discriminate.
  - intros f Hf. unfold required in Hf.
    repeat (apply elem_of_cons in Hf as [->|Hf]; [reflexivity|]).
    by apply elem_of_nil in Hf.
Defined.

(** X8: the increment and the insert are two calls.  When the increment
    goes through and the insert is rejected with [msg], POST answers 500
    with [{error: msg}], no contact is stored, but the counter has moved
    from [k] to [k + 1]; the next successful POST gets the id [k + 2], so
    the id [k + 1] is never given to any contact. *)
Theorem rejected_insert_uses_up_id (b b' : value) (k : Z) (msg : string)
    (w : World) :
  connected w ->
  faults w = [None; Some msg] ->
  last_sequence w = Some k ->
  complete b = true ->
  complete b' = true ->
  (post (Some b) w).1 = json 500 (error_body msg) /\
  stored (post (Some b) w).2 "contacts" = stored w "contacts" /\
  last_sequence (post (Some b) w).2 = Some (k + 1) /\
  (post (Some b') (post (Some b) w).2).1
    = json 201 (VObj {[ "id" := VNum (k + 2) ]}).
Proof.
  intros [d Hd] Hf Hk Hb Hb'.
  assert (b <> VNull) as Hnull by (intros ->; discriminate).
  unfold last_sequence in Hk. rewrite (stored_Some _ _ _ Hd) in Hk.
  assert (Hpost : exists c', sequence_of c' = Some (k + 1) /\
            post (Some b) w
            = (json 500 (error_body msg),
               mkWorld (Some (<["counters" := c']> d)) [] (next_oid w))).
  { unfold post, try_catch. rewrite (post_body_test b Hnull), Hb.
    unfold getNextSequence.
    unfold bind at 1. unfold bind at 1. rewrite (getDb_connected w d Hd).
    unfold bind at 1. unfold Mongo.findOneAndUpdate_inc.
    rewrite (call_pass _ w d _ Hd Hf).
    pose proof (find_inc_contacts (coll d "counters")) as Hinc.
    destruct (Mongo.find_inc _ _ _ _) as [[new c']|msg']; [|congruence].
    destruct Hinc as (k' & Hk1 & Hnew & Hk2).
    assert (k' = k) as -> by congruence.
    exists c'. split; [done|].
    unfold ret at 1. unfold bind at 1. unfold getDb at 1. cbn [db].
    unfold bind at 1. unfold Mongo.insertOne.
    by rewrite call_fault with (msg := msg) (fs := []). }
  destruct Hpost as (c' & Hc' & ->). cbn [fst snd].
  split; [done|]. split; [|split].
  - unfold stored. cbn [db]. by rewrite Hd, coll_insert_ne.
  - unfold last_sequence, stored. cbn [db]. by rewrite coll_insert_eq.
  - destruct (post_healthy b' (mkWorld (Some (<["counters" := c']> d)) []
                                 (next_oid w)) (k + 1))
      as (w2 & -> & _); [apply healthy_mk | | done |].
    + unfold last_sequence, stored. cbn [db]. by rewrite coll_insert_eq.
    + cbn [fst]. by replace (k + 1 + 1) with (k + 2) by lia.
Qed.

Lemma rejected_insert_uses_up_id_witness :
  (post (Some (VObj ada)) (mkWorld (db with_twelve) [None; Some "disk full"] 1)).1
    = json 500 (error_body "disk full") /\
  (post (Some (VObj ada))
     (post (Some (VObj ada))
        (mkWorld (db with_twelve) [None; Some "disk full"] 1)).2).1
    = json 201 (VObj {[ "id" := VNum 14 ]}).
Proof.
  destruct (rejected_insert_uses_up_id (VObj ada) (VObj ada) 12 "disk full"
              (mkWorld (db with_twelve) [None; Some "disk full"] 1))
    as (H500 & _ & _ & H201); try reflexivity.
  - by eexists.
  - split; [exact H500 | exact H201].
Defined.

(** * Beyond the specified behaviour: updating *)

Section Updating.

Implicit Types (c : collection) (u x : doc) (n : Z).

Lemma set_fields_idem u x :
  Mongo.set_fields u (Mongo.set_fields u x) = Mongo.set_fields u x.
Proof.
  unfold Mongo.set_fields. by rewrite (assoc_L (∪)), (idemp_L (∪)).
Qed.

Lemma matches_update (m : doc) n x :
  Mongo.matches (Mongo.NumIs "id" n) x = true ->
  Mongo.matches (Mongo.NumIs "id" n)
    (Mongo.set_fields (delete "_id" (delete "id" m)) x) = true.
Proof.
  intros Hm%matches_id. apply matches_id. unfold contact_id in *.
  destruct (kept_set_fields m x) as [Hkept _]. by rewrite Hkept.
Qed.

Lemma update_first_idem f (g : doc -> doc) c :
  (forall x, g (g x) = g x) ->
  (forall x, Mongo.matches f x = true -> Mongo.matches f (g x) = true) ->
  Mongo.update_first f g (Mongo.update_first f g c) = Mongo.update_first f g c.
Proof.
  intros Hg Hm. induction c as [|x c IH]; [done|]. simpl.
  destruct (Mongo.matches f x) eqn:Hx; simpl.
  - by rewrite (Hm x Hx), Hg.
  - by rewrite Hx, IH.
Qed.

Lemma update_first_others n (g : doc -> doc) c :
  Forall2 (same_unless n) c (Mongo.update_first (Mongo.NumIs "id" n) g c).
Proof.
  induction c as [|x c IH]; cbn [Mongo.update_first]; [constructor|].
  destruct (Mongo.matches _ x) eqn:Hx.
  - constructor.
    + intros Hne. apply matches_id in Hx. contradiction.
    + apply Forall2_same_length_lookup_2; [done|]. intros i y z Hy Hz _.
      congruence.
  - constructor; [by intros _ | done].
Qed.

Global Instance others_same_refl n : Reflexive (others_same n).
Proof.
  intros w. unfold others_same.
  apply Forall2_same_length_lookup_2; [done|]. intros i y z Hy Hz _. congruence.
Qed.

Global Instance others_same_trans n : Transitive (others_same n).
Proof.
  intros w1 w2 w3. unfold others_same.
  generalize (stored w1 "contacts") (stored w2 "contacts") (stored w3 "contacts").
  intros c1 c2 c3 H12. revert c3.
  induction H12 as [|x y c1 c2 Hxy _ IH]; intros c3 H23.
  - by apply Forall2_nil_inv_l in H23 as ->.
  - apply Forall2_cons_inv_l in H23 as (z & c3' & Hyz & H23 & ->).
    constructor; [|by apply IH].
    intros Hne. rewrite <- (Hxy Hne). apply Hyz. by rewrite (Hxy Hne).
Qed.

Lemma others_same_db n w w' : db w' = db w -> others_same n w w'.
Proof.
  intros Hdb. unfold others_same. rewrite (stored_db w w' _ Hdb).
  apply (others_same_refl n w).
Qed.

Lemma put_others id n b w :
  JS.parseInt id = JS.Num n -> others_same n w (put id b w).2.
Proof.
  intros Hid. unfold put. apply try_catch_rel; try apply _. intros r w'.
  unfold put_body. rewrite Hid.
  apply bind_rel; try apply _; [apply getDb_rel; apply _|]. intros [] w1 r1 w2 _.
  apply bind_rel; try apply _.
  { intros r2 w3 H. by apply others_same_db, (findOne_db _ _ _ _ _ H). }
  intros [c|] w3 r2 w4 _; [|apply ret_rel; apply _].
  apply bind_rel; try apply _; [apply getDb_rel; apply _|]. intros [] w5 r3 w6 _.
  apply bind_rel; try apply _.
  { intros r4 w7 H. unfold Mongo.updateOne_set in H.
    apply call_inv in H as [[Hdb _]|(d & d' & o' & Hd & Hop & Hd')].
    { by apply others_same_db. }
    injection Hop as _ <- _. unfold others_same.
    rewrite (stored_Some _ _ _ Hd'), (stored_Some _ _ _ Hd), coll_insert_eq.
    apply update_first_others. }
  intros [] w7 r4 w8 _.
  apply bind_rel; try apply _; [apply getDb_rel; apply _|]. intros [] w9 r5 w10 _.
  apply bind_rel; try apply _.
  { intros r6 w11 H. by apply others_same_db, (findOne_db _ _ _ _ _ H). }
  intros updated w11 r6 w12 _. apply ret_rel; apply _.
Qed.

End Updating.

(** X9: PUT /contacts/:id never creates a contact.  On a healthy world,
    when no contact has the id [n] that the path reads as, it answers 404
    with [{error: "Contact not found"}] and the world is left as it was,
    whatever the body holds. *)
Theorem put_missing (id : string) (n : Z) (b : jsval) (w : World) :
  healthy w ->
  JS.parseInt id = JS.Num n ->
  n ∉ ids (stored w "contacts") ->
  put id b w = (json 404 (error_body "Contact not found"), w).
Proof.
  intros [[d Hd] Hf] Hid Habs. rewrite (stored_Some _ _ _ Hd) in Habs.
  apply find_id_None in Habs.
  unfold put, try_catch, put_body. rewrite Hid.
  unfold bind at 1. rewrite (getDb_connected w d Hd).
  unfold bind. rewrite (findOne_healthy _ _ w d Hd Hf). by rewrite Habs.
Qed.

Lemma put_missing_witness :
  put "13" (Some (VObj (<["id" := VNum 13]> ada))) with_twelve
  = (json 404 (error_body "Contact not found"), with_twelve).
Proof.
  apply (put_missing "13" 13 _ with_twelve).
  - split; [by eexists | reflexivity].
  - reflexivity.
  - vm_compute. intros Hin. apply list_elem_of_singleton in Hin. discriminate.
Defined.

(** X10: PUT /contacts/:id touches the addressed contact only.  In every
    state of the world and whatever the request's outcome, the contacts are
    as many as before and have the same ids in the same order, and every
    contact whose id is not the [n] read from the path is exactly as it
    was. *)
Theorem put_touches_one (id : string) (n : Z) (b : jsval) (w : World) :
  JS.parseInt id = JS.Num n ->
  List.length (stored (put id b w).2 "contacts")
    = List.length (stored w "contacts") /\
  ids (stored (put id b w).2 "contacts") = ids (stored w "contacts") /\
  Forall2 (fun x x' : doc => contact_id x <> Some n -> x' = x)
    (stored w "contacts") (stored (put id b w).2 "contacts").
Proof.
  intros Hid. pose proof (put_others id n b w Hid) as Hothers.
  destruct (put_effect id b w) as [_ Hkept].
  split; [|split].
  - symmetry. by eapply Forall2_length.
  - by apply (ids_kept (JS.spread b)).
  - exact Hothers.
Qed.

Lemma put_touches_one_witness :
  stored (put "2" (Some (VObj {[ "email" := VStr "new" ]})) three_contacts).2
    "contacts"
  = [contact_numbered 0 1; <["email" := VStr "new"]> (contact_numbered 1 2);
     contact_numbered 2 3] /\
  ids (stored (put "2" (Some (VObj {[ "email" := VStr "new" ]})) three_contacts).2
         "contacts") = [1; 2; 3].
Proof.
  destruct (put_touches_one "2" 2 (Some (VObj {[ "email" := VStr "new" ]}))
              three_contacts eq_refl) as (_ & Hids & _).
  split; [vm_compute; reflexivity|].
  rewrite Hids. vm_compute. reflexivity.
Defined.

Section UpdatingTwice.

Lemma put_healthy_none id n (b : jsval) w d :
  db w = Some d -> faults w = [] ->
  JS.parseInt id = JS.Num n ->
  stored_under n (coll d "contacts") = None ->
  put id b w = (json 404 (error_body "Contact not found"), w).
Proof.
  intros Hd Hf Hid Hnone. unfold put, try_catch, put_body. rewrite Hid.
  unfold bind at 1. rewrite (getDb_connected w d Hd).
  unfold bind. rewrite (findOne_healthy _ _ w d Hd Hf).
  unfold stored_under in Hnone. by rewrite Hnone.
Qed.

Lemma stored_under_updated n (m : doc) (c : collection) x :
  stored_under n c = Some x ->
  stored_under n
    (Mongo.update_first (Mongo.NumIs "id" n)
       (Mongo.set_fields (delete "_id" (delete "id" m))) c)
  = Some (Mongo.set_fields (delete "_id" (delete "id" m)) x).
Proof.
  intros Hx. unfold stored_under in *.
  apply find_update_first; [done|].
  apply matches_update. by apply find_some in Hx as [_ ?].
Qed.

End UpdatingTwice.

(** X11: PUT /contacts/:id is idempotent.  On a healthy world, sending the
    same PUT a second time gives the same response as the first and leaves
    the world the first one left. *)
Theorem put_twice (id : string) (n : Z) (b : jsval) (w : World) :
  healthy w ->
  JS.parseInt id = JS.Num n ->
  put id b (put id b w).2 = put id b w.
Proof.
  intros [[d Hd] Hf] Hid.
  destruct (stored_under n (coll d "contacts")) as [c|] eqn:Hc.
  - rewrite (put_healthy id n b w d c Hd Hf Hid Hc). cbn [snd].
    erewrite put_healthy;
      [|reflexivity|reflexivity|exact Hid
       |rewrite coll_insert_eq; by apply stored_under_updated].
    rewrite set_fields_idem, coll_insert_eq, insert_insert_eq.
    rewrite update_first_idem; [done|apply set_fields_idem|].
    intros x. apply matches_update.
  - rewrite (put_healthy_none id n b w d Hd Hf Hid Hc). cbn [snd].
    by apply (put_healthy_none id n b w d).
Qed.

Lemma put_twice_witness :
  put "2" (Some (VObj {[ "email" := VStr "new" ]}))
    (put "2" (Some (VObj {[ "email" := VStr "new" ]})) three_contacts).2
  = put "2" (Some (VObj {[ "email" := VStr "new" ]})) three_contacts.
Proof.
  apply (put_twice "2" 2 _ three_contacts).
  - split; [by eexists | reflexivity].
  - reflexivity.
Defined.

(** X12: read your writes.  On a healthy world, after a PUT /contacts/:id
    on a stored contact, a GET with the same id returns the very body the
    PUT answered with, status 200, and changes nothing. *)
Theorem put_then_get (id : string) (n : Z) (b : jsval) (w : World) :
  healthy w ->
  JS.parseInt id = JS.Num n ->
  n ∈ ids (stored w "contacts") ->
  status (put id b w).1 = 200 /\
  get_one id (put id b w).2 = ((put id b w).1, (put id b w).2).
Proof.
  intros [[d Hd] Hf] Hid Hin. rewrite (stored_Some _ _ _ Hd) in Hin.
  destruct (stored_under n (coll d "contacts")) as [c|] eqn:Hc.
  - rewrite (put_healthy id n b w d c Hd Hf Hid Hc). cbn [fst snd].
    split; [done|].
    erewrite get_one_healthy; [|exact Hid|reflexivity|reflexivity].
    rewrite coll_insert_eq.
    pose proof (stored_under_updated n (JS.spread b) _ c Hc) as Hnew.
    unfold stored_under in Hnew. by rewrite Hnew.
  - unfold stored_under in Hc. apply find_id_None in Hc. contradiction.
Qed.

Lemma put_then_get_witness :
  (get_one "12" (put "12" (Some (VObj {[ "email" := VStr "new" ]})) with_twelve).2).1
  = json 200 (VObj (<["email" := VStr "new"]> twelve)).
Proof.
  destruct (put_then_get "12" 12 (Some (VObj {[ "email" := VStr "new" ]}))
              with_twelve) as [_ Hget].
  - split; [by eexists | reflexivity].
  - reflexivity.
  - vm_compute. left.
  - rewrite Hget. vm_compute. reflexivity.
Defined.

(** * Beyond the specified behaviour: what a success status means *)

Section Success.

Lemma findOne_Ok name f w x w' :
  Mongo.findOne name f w = (Ok x, w') ->
  x = List.find (Mongo.matches f) (stored w name) /\ db w' = db w.
Proof.
  unfold Mongo.findOne. intros H.
  apply call_inv in H as [[_ [msg [=]]]|(d & d' & o' & Hd & Hop & Hd')].
  injection Hop as <- <- _. rewrite (stored_Some _ _ _ Hd). split; congruence.
Qed.

Lemma get_one_200 id w :
  status (get_one id w).1 = 200 ->
  exists n c, JS.parseInt id = JS.Num n /\
              stored_under n (stored w "contacts") = Some c /\
              (get_one id w).1 = json 200 (VObj c).
Proof.
  destruct (get_one id w) as [resp w'] eqn:E. cbn [fst]. intros H200.
  unfold get_one in E. apply try_catch_inv in E as [E|(msg & _ & ->)];
    [|discriminate].
  unfold get_one_body in E. destruct (JS.parseInt id) as [|n].
  { apply ret_Ok in E as [-> _]. discriminate. }
  apply bind_Ok in E as ([] & w1 & Hg & E). apply getDb_Ok in Hg as [-> _].
  apply bind_Ok in E as (x & w2 & Hfind & E).
  apply findOne_Ok in Hfind as [-> _].
  destruct (List.find _ _) as [c|] eqn:Hc;
    apply ret_Ok in E as [-> _]; [|discriminate].
  exists n, c. done.
Qed.

Lemma put_200 id b w :
  status (put id b w).1 = 200 ->
  exists n c,
    JS.parseInt id = JS.Num n /\
    stored_under n (stored w "contacts") = Some c /\
    (put id b w).1
      = json 200 (VObj (Mongo.set_fields (delete "_id" (delete "id" (JS.spread b))) c)) /\
    stored_under n (stored (put id b w).2 "contacts")
      = Some (Mongo.set_fields (delete "_id" (delete "id" (JS.spread b))) c).
Proof.
  destruct (put id b w) as [resp w'] eqn:E. cbn [fst snd]. intros H200.
  unfold put in E. apply try_catch_inv in E as [E|(msg & _ & ->)];
    [|discriminate].
  unfold put_body in E. destruct (JS.parseInt id) as [|n].
  { apply ret_Ok in E as [-> _]. discriminate. }
  apply bind_Ok in E as ([] & w1 & Hg & E). apply getDb_Ok in Hg as [-> _].
  apply bind_Ok in E as (x & w2 & Hfind & E).
  apply findOne_Ok in Hfind as [-> Hdb2].
  destruct (List.find _ (stored w "contacts")) as [c|] eqn:Hc; cycle 1.
  { apply ret_Ok in E as [-> _]. discriminate. }
  apply bind_Ok in E as ([] & w3 & Hg & E). apply getDb_Ok in Hg as [-> _].
  apply bind_Ok in E as ([] & w4 & Hupd & E).
  unfold Mongo.updateOne_set in Hupd.
  apply call_inv in Hupd as [[_ [msg [=]]]|(d & d' & o' & Hd & Hop & Hd')].
  injection Hop as <- _.
  apply bind_Ok in E as ([] & w5 & Hg & E). apply getDb_Ok in Hg as [-> _].
  apply bind_Ok in E as (y & w6 & Hfind & E).
  apply findOne_Ok in Hfind as [-> Hdb6].
  apply ret_Ok in E as [-> ->].
  assert (Hw : stored w "contacts" = coll d "contacts").
  { rewrite <- (stored_db w w2 _ Hdb2). by apply stored_Some. }
  assert (Hw4 : stored w4 "contacts"
            = Mongo.update_first (Mongo.NumIs "id" n)
                (Mongo.set_fields (delete "_id" (delete "id" (JS.spread b))))
                (stored w "contacts")).
  { by rewrite (stored_Some _ _ _ Hd'), coll_insert_eq, Hw. }
  pose proof (stored_under_updated n (JS.spread b) _ c Hc) as Hnew.
  rewrite <- Hw4 in Hnew.
  exists n, c. split; [done|]. split; [done|].
  rewrite (stored_db w4 w6 _ Hdb6).
  unfold stored_under in Hnew |- *. rewrite Hnew. done.
Qed.

End Success.

(** X13: a 200 from GET /contacts/:id or PUT /contacts/:id always carries a
    stored contact, in every state of the world, driver calls that fail
    included.  From GET the body is the contact stored under the id read
    from the path.  From PUT it is that contact with the body's fields set
    ([id] and [_id] apart), and it is what is stored under the id
    afterwards: never null, never a contact that was not written. *)
Theorem success_carries_contact (id : string) (b : jsval) (w : World) :
  (status (get_one id w).1 = 200 ->
     exists n c, JS.parseInt id = JS.Num n /\
                 stored_under n (stored w "contacts") = Some c /\
                 (get_one id w).1 = json 200 (VObj c)) /\
  (status (put id b w).1 = 200 ->
     exists n c c',
       JS.parseInt id = JS.Num n /\
       stored_under n (stored w "contacts") = Some c /\
       c' = delete "_id" (delete "id" (JS.spread b)) ∪ c /\
       (put id b w).1 = json 200 (VObj c') /\
       stored_under n (stored (put id b w).2 "contacts") = Some c').
Proof.
  split.
  - apply get_one_200.
  - intros H200. destruct (put_200 id b w H200) as (n & c & Hid & Hc & Hr & Hs).
    exists n, c, (delete "_id" (delete "id" (JS.spread b)) ∪ c). done.
Qed.

(** A PUT that succeeds although an earlier and a later driver call are
    scripted without fault, and one that does not. *)
Example success_carries_contact_sample :
  (put "12" (Some (VObj {[ "email" := VStr "new" ]}))
     (mkWorld (db with_twelve) [None; None; None] 1)).1
    = json 200 (VObj (<["email" := VStr "new"]> twelve)) /\
  status (put "12" (Some (VObj {[ "email" := VStr "new" ]}))
            (mkWorld (db with_twelve) [None; None; Some "timeout"] 1)).1 = 500.
Proof. split; vm_compute; reflexivity. Qed.

(** * Beyond the specified behaviour: deleting *)

Section Deleting.

Implicit Types (c l : collection) (n : Z).

(** Deleting by id splits the collection at the first contact with that
    id. *)
Lemma delete_first_split n c :
  (Mongo.delete_first (Mongo.NumIs "id" n) c).2 <> 0 ->
  exists l1 x l2,
    c = (l1 ++ x :: l2)%list /\ contact_id x = Some n /\ (n ∉ ids l1) /\
    (Mongo.delete_first (Mongo.NumIs "id" n) c).1 = (l1 ++ l2)%list.
Proof.
  induction c as [|y c IH]; [done|]. cbn [Mongo.delete_first].
  destruct (Mongo.matches _ y) eqn:Hy.
  - intros _. exists [], y, c. apply matches_id in Hy.
    split; [done|]. split; [done|]. split; [apply not_elem_of_nil | done].
  - destruct (Mongo.delete_first _ c) as [c' k]. cbn [fst snd] in *.
    intros Hk. destruct (IH Hk) as (l1 & x & l2 & -> & Hx & Hl1 & ->).
    exists (y :: l1), x, l2. split; [done|]. split; [done|]. split; [|done].
    rewrite ids_cons.
    assert (contact_id y <> Some n) as Hne.
    { intros Hid%matches_id. congruence. }
    destruct (contact_id y) as [m|]; [|done].
    apply not_elem_of_cons. split; [congruence | done].
Qed.

Lemma delete_first_present n c :
  n ∈ ids c -> (Mongo.delete_first (Mongo.NumIs "id" n) c).2 = 1.
Proof.
  induction c as [|y c IH]; [by intros ?%elem_of_nil|].
  rewrite ids_cons. cbn [Mongo.delete_first].
  destruct (Mongo.matches _ y) eqn:Hy; [done|].
  assert (contact_id y <> Some n) as Hne.
  { intros Hid%matches_id. congruence. }
  destruct (Mongo.delete_first _ c) as [c' k]. cbn [fst snd] in *.
  intros Hin. apply IH. destruct (contact_id y) as [m|]; [|done].
  apply elem_of_cons in Hin as [->|Hin]; [congruence | done].
Qed.

Lemma delete_one_200 id w :
  status (delete_one id w).1 = 200 ->
  exists n,
    JS.parseInt id = JS.Num n /\
    (Mongo.delete_first (Mongo.NumIs "id" n) (stored w "contacts")).2 <> 0 /\
    stored (delete_one id w).2 "contacts"
      = (Mongo.delete_first (Mongo.NumIs "id" n) (stored w "contacts")).1 /\
    (delete_one id w).1
      = json 200 (VObj {[ "message" := VStr "Contact deleted successfully" ]}).
Proof.
  destruct (delete_one id w) as [resp w'] eqn:E. cbn [fst snd]. intros H200.
  unfold delete_one in E. apply try_catch_inv in E as [E|(msg & _ & ->)];
    [|discriminate].
  unfold delete_body in E. destruct (JS.parseInt id) as [|n].
  { apply ret_Ok in E as [-> _]. discriminate. }
  apply bind_Ok in E as ([] & w1 & Hg & E). apply getDb_Ok in Hg as [-> _].
  apply bind_Ok in E as (k & w2 & Hdel & E).
  unfold Mongo.deleteOne in Hdel.
  apply call_inv in Hdel as [[_ [msg [=]]]|(d & d' & o' & Hd & Hop & Hd')].
  rewrite (stored_Some _ _ _ Hd).
  destruct (Mongo.delete_first _ (coll d "contacts")) as [c' k'] eqn:Hdf.
  injection Hop as -> <- _. cbn [fst snd].
  destruct (Z.eqb_spec k 0) as [->|Hk];
    apply ret_Ok in E as [-> ->]; [discriminate|].
  exists n. rewrite Hdf. cbn [fst snd]. split; [done|]. split; [done|].
  by rewrite (stored_Some _ _ _ Hd'), coll_insert_eq.
Qed.

End Deleting.

(** X14: DELETE /contacts/:id removes the first contact with the id, and
    nothing else.  Whenever it answers 200, in every state of the world, a
    contact with the id [n] read from the path was stored; afterwards the
    contacts are those before without the first one whose id is [n], in the
    same order, the counters are untouched, and the body is
    [{message: "Contact deleted successfully"}].  On a healthy world it
    does answer 200 whenever a contact has the id. *)
Theorem delete_removes_first (id : string) (w : World) :
  (status (delete_one id w).1 = 200 ->
     exists n l1 x l2,
       JS.parseInt id = JS.Num n /\
       stored w "contacts" = (l1 ++ x :: l2)%list /\
       contact_id x = Some n /\ (n ∉ ids l1) /\
       stored (delete_one id w).2 "contacts" = (l1 ++ l2)%list /\
       stored (delete_one id w).2 "counters" = stored w "counters" /\
       body (delete_one id w).1
         = VObj {[ "message" := VStr "Contact deleted successfully" ]}) /\
  (forall n, healthy w -> JS.parseInt id = JS.Num n ->
             n ∈ ids (stored w "contacts") ->
             status (delete_one id w).1 = 200).
Proof.
  split.
  - intros H200.
    destruct (delete_one_200 id w H200) as (n & Hid & Hk & Hafter & Hresp).
    destruct (delete_first_split n _ Hk) as (l1 & x & l2 & Hc & Hx & Hl1 & Hd).
    destruct (delete_effect id w) as [Hcounters _].
    exists n, l1, x, l2. rewrite Hafter, Hd, Hresp. done.
  - intros n [[d Hd] Hf] Hid Hin. rewrite (stored_Some _ _ _ Hd) in Hin.
    rewrite (delete_healthy id n w d Hd Hf Hid). cbn [fst].
    by rewrite (delete_first_present n _ Hin).
Qed.

Example delete_removes_first_sample :
  status (delete_one "2" three_contacts).1 = 200 /\
  stored (delete_one "2" three_contacts).2 "contacts"
    = [contact_numbered 0 1; contact_numbered 2 3].
Proof. split; vm_compute; reflexivity. Qed.

(** X15: after a successful DELETE /contacts/:id on a healthy world with
    unique ids, the contact is gone for the other endpoints too: a GET and
    a PUT with that id answer 404 and change nothing, and GET /contacts no
    longer lists a contact with that id. *)
Theorem delete_then_gone (id : string) (n : Z) (b : jsval) (w : World) :
  healthy w ->
  unique_ids (stored w "contacts") ->
  JS.parseInt id = JS.Num n ->
  status (delete_one id w).1 = 200 ->
  get_one id (delete_one id w).2
    = (json 404 (error_body "Contact not found"), (delete_one id w).2) /\
  put id b (delete_one id w).2
    = (json 404 (error_body "Contact not found"), (delete_one id w).2) /\
  exists l, (get_all (delete_one id w).2).1 = json 200 (VArr (VObj <$> l)) /\
            n ∉ ids l.
Proof.
  intros [[d Hd] Hf] Huniq Hid H200.
  rewrite (stored_Some _ _ _ Hd) in Huniq.
  pose proof (delete_first_gone n _ Huniq) as Hgone.
  rewrite (delete_healthy id n w d Hd Hf Hid). cbn [snd].
  set (w1 := mkWorld _ _ _).
  assert (Hfind : stored_under n (coll (<["contacts" :=
              (Mongo.delete_first (Mongo.NumIs "id" n) (coll d "contacts")).1]> d)
              "contacts") = None).
  { rewrite coll_insert_eq. by apply find_id_None. }
  split; [|split].
  - rewrite (get_one_healthy id n w1 _ Hid eq_refl eq_refl).
    unfold stored_under in Hfind. by rewrite Hfind.
  - by apply (put_healthy_none id n b w1 _ eq_refl eq_refl Hid).
  - exists (Mongo.delete_first (Mongo.NumIs "id" n) (coll d "contacts")).1.
    split; [|done].
    unfold get_all, try_catch, get_all_body.
    unfold bind at 1. unfold getDb at 1. cbn [db w1].
    unfold bind, Mongo.find_toArray.
    rewrite call_healthy with (d := _) by done.
    by rewrite coll_insert_eq.
Qed.

Lemma delete_then_gone_witness :
  status (get_one "2" (delete_one "2" three_contacts).2).1 = 404 /\
  status (put "2" (Some (VObj ada)) (delete_one "2" three_contacts).2).1 = 404.
Proof.
  destruct (delete_then_gone "2" 2 (Some (VObj ada)) three_contacts)
    as (Hget & Hput & _).
  - split; [by eexists | reflexivity].
  - unfold unique_ids. vm_compute.
    repeat (apply NoDup_cons; split;
            [intros Hin;
             repeat (apply elem_of_cons in Hin as [Heq|Hin]; [discriminate|]);
             by apply elem_of_nil in Hin|]).
    apply NoDup_nil_2.
  - reflexivity.
  - reflexivity.
  - rewrite Hget, Hput. split; reflexivity.
Defined.

(** * Beyond the specified behaviour: statuses *)

Section Statuses.

Lemma try_catch_status (m : M Response) (codes : list Z) w :
  500 ∈ codes ->
  (forall r w', m w = (Ok r, w') -> status r ∈ codes) ->
  status (try_catch m w).1 ∈ codes.
Proof.
  intros H500 Hm. unfold try_catch.
  destruct (m w) as [[r|msg] w'] eqn:E; cbn [fst]; [by apply (Hm r w') | done].
Qed.

Lemma get_all_status w : status (get_all w).1 ∈ [200; 500].
Proof.
  apply try_catch_status; [set_solver|]. intros r w' H.
  unfold get_all_body in H. unfold_steps. set_solver.
Qed.


Lemma post_status b w : status (post b w).1 ∈ [201; 400; 500].
Proof.
  apply try_catch_status; [set_solver|]. intros r w' H.
  unfold post_body in H. apply bind_Ok in H as (v & w1 & _ & H).
  unfold_steps; set_solver.
Qed.



Lemma post_complete_not_400 (v : value) w :
  complete v = true -> status (post (Some v) w).1 <> 400.
Proof.
  intros Hc. assert (v <> VNull) as Hnull by (intros ->; discriminate).
  apply try_catch_not_400. intros r w'.
  rewrite (post_body_test v Hnull), Hc. intros H.
  apply bind_Ok in H as (seq & w1 & _ & H). cbv zeta in H. unfold_steps. done.
Qed.

Lemma post_400_unchanged b w : status (post b w).1 = 400 -> (post b w).2 = w.
Proof.
  destruct b as [v|]; [|by intros [=]].
  assert (v = VNull \/ v <> VNull) as [->|Hv]
    by (destruct v; (by left) || (by right)); [by intros [=]|].
  destruct (complete v) eqn:Hc.
  - intros H. by apply post_complete_not_400 in H.
  - by rewrite (post_incomplete v w Hv Hc).
Qed.

Lemma put_404_unchanged id b w :
  status (put id b w).1 = 404 ->
  forall name, stored (put id b w).2 name = stored w name.
Proof.
  destruct (put id b w) as [resp w'] eqn:E. cbn [fst snd]. intros H404 name.
  unfold put in E. apply try_catch_inv in E as [E|(msg & _ & ->)];
    [|discriminate].
  unfold put_body in E. destruct (JS.parseInt id) as [|n].
  { apply ret_Ok in E as [-> _]. discriminate. }
  apply bind_Ok in E as ([] & w1 & Hg & E). apply getDb_Ok in Hg as [-> _].
  apply bind_Ok in E as (x & w2 & Hfind & E).
  apply findOne_Ok in Hfind as [-> Hdb2].
  destruct (List.find _ (stored w "contacts")) as [c|].
  - unfold_steps. discriminate.
  - apply ret_Ok in E as [_ ->]. by apply stored_db.
Qed.

Lemma delete_404_unchanged id w :
  status (delete_one id w).1 = 404 ->
  forall name, stored (delete_one id w).2 name = stored w name.
Proof.
  destruct (delete_one id w) as [resp w'] eqn:E. cbn [fst snd].
  intros H404 name.
  unfold delete_one in E. apply try_catch_inv in E as [E|(msg & _ & ->)];
    [|discriminate].
  unfold delete_body in E. destruct (JS.parseInt id) as [|n].
  { apply ret_Ok in E as [-> _]. discriminate. }
  apply bind_Ok in E as ([] & w1 & Hg & E). apply getDb_Ok in Hg as [-> _].
  apply bind_Ok in E as (k & w2 & Hdel & E).
  unfold Mongo.deleteOne in Hdel.
  apply call_inv in Hdel as [[_ [msg [=]]]|(d & d' & o' & Hd & Hop & Hd')].
  destruct (Mongo.delete_first _ (coll d "contacts")) as [c' k'] eqn:Hdf.
  injection Hop as -> <- _.
  destruct (Z.eqb_spec k 0) as [->|Hk];
    apply ret_Ok in E as [-> ->]; [|discriminate].
  assert (c' = coll d "contacts") as ->.
  { pose proof (delete_first_count n (coll d "contacts")) as Habs.
    rewrite Hdf in Habs. specialize (Habs eq_refl).
    rewrite (delete_first_absent n _ Habs) in Hdf. congruence. }
  rewrite (stored_Some _ _ _ Hd'), (stored_Some _ _ _ Hd).
  destruct (decide (name = "contacts")) as [->|Hne].
  - by rewrite coll_insert_eq.
  - by rewrite coll_insert_ne.
Qed.

End Statuses.

(** Refute membership of a number in a list of other numbers. *)
Ltac not_among H :=
  repeat (apply elem_of_cons in H as [H|H]; [discriminate H|]);
  by apply elem_of_nil in H.


(** X17: a client error leaves everything as it was.  In every state of
    the world, a request answered with 400 has not changed the world at
    all: the input is checked before the database is reached for.  A
    request answered with 404 has left every stored collection as it
    was. *)
Theorem client_errors_change_nothing (r : Request) (w : World) :
  (status (handle r w).1 = 400 -> (handle r w).2 = w) /\
  (status (handle r w).1 = 404 ->
     forall name, stored (handle r w).2 name = stored w name).
Proof.
  destruct r as [|id|b|id b|id]; cbn [handle].
  - split; intros H; pose proof (get_all_status w) as Hs; rewrite H in Hs;
      not_among Hs.
  - split.
    + destruct (JS.parseInt id) as [|n] eqn:Hid.
      * by rewrite (get_one_NaN id w Hid).
      * intros H. by apply (get_one_Num_not_400 id n w Hid) in H.
    + intros _ name. apply stored_db, get_one_db.
  - split; [apply post_400_unchanged|].
    intros H. pose proof (post_status b w) as Hs. rewrite H in Hs.
    not_among Hs.
  - split; [|apply put_404_unchanged].
    destruct (JS.parseInt id) as [|n] eqn:Hid.
    + by rewrite (put_NaN id b w Hid).
    + intros H. by apply (put_Num_not_400 id n b w Hid) in H.
  - split; [|apply delete_404_unchanged].
    destruct (JS.parseInt id) as [|n] eqn:Hid.
    + by rewrite (delete_one_NaN id w Hid).
    + intros H. by apply (delete_one_Num_not_400 id n w Hid) in H.
Qed.

(** X18: the write of a PUT and its re-read are two calls.  When the
    lookup and the update go through and the final re-read is rejected with
    [msg], PUT answers 500 with [{error: msg}] although the contact has
    been updated: what is stored under the id afterwards is the contact
    with the body's fields set. *)
Theorem put_rejected_reread (id : string) (n : Z) (b : jsval) (c : doc)
    (msg : string) (w : World) :
  connected w ->
  faults w = [None; None; Some msg] ->
  JS.parseInt id = JS.Num n ->
  stored_under n (stored w "contacts") = Some c ->
  (put id b w).1 = json 500 (error_body msg) /\
  stored_under n (stored (put id b w).2 "contacts")
    = Some (delete "_id" (delete "id" (JS.spread b)) ∪ c).
Proof.
  intros [d Hd] Hf Hid Hc. rewrite (stored_Some _ _ _ Hd) in Hc.
  assert (Hput : put id b w
            = (json 500 (error_body msg),
               mkWorld
                 (Some (<["contacts" :=
                           Mongo.update_first (Mongo.NumIs "id" n)
                             (Mongo.set_fields
                                (delete "_id" (delete "id" (JS.spread b))))
                             (coll d "contacts")]> d))
                 [] (next_oid w))).
  { unfold put, try_catch, put_body. rewrite Hid.
    unfold bind at 1. rewrite (getDb_connected w d Hd).
    unfold bind at 1. unfold Mongo.findOne at 1.
    rewrite (call_pass _ w d _ Hd Hf).
    unfold stored_under in Hc. rewrite Hc.
    unfold bind at 1. unfold getDb at 1. cbn [db].
    unfold bind at 1. unfold Mongo.updateOne_set.
    rewrite call_pass with (d := d) (fs := [Some msg]) by done.
    unfold bind at 1. unfold getDb at 1. cbn [db].
    unfold bind. unfold Mongo.findOne.
    by rewrite call_fault with (msg := msg) (fs := []). }
  rewrite Hput. cbn [fst snd]. split; [done|].
  unfold stored. cbn [db]. rewrite coll_insert_eq.
  by apply stored_under_updated.
Qed.

Lemma put_rejected_reread_witness :
  status (put "12" (Some (VObj {[ "email" := VStr "new" ]}))
            (mkWorld (db with_twelve) [None; None; Some "timeout"] 1)).1 = 500 /\
  stored (put "12" (Some (VObj {[ "email" := VStr "new" ]}))
            (mkWorld (db with_twelve) [None; None; Some "timeout"] 1)).2
    "contacts" = [ <["email" := VStr "new"]> twelve ].
Proof.
  destruct (put_rejected_reread "12" 12 (Some (VObj {[ "email" := VStr "new" ]}))
              twelve "timeout"
              (mkWorld (db with_twelve) [None; None; Some "timeout"] 1))
    as [H500 _]; try reflexivity.
  - by eexists.
  - rewrite H500. split; [reflexivity|]. vm_compute. reflexivity.
Defined.

(** * Beyond the specified behaviour: invariants of runs *)

Section RunFacts.

Lemma only_post_201 r w :
  (forall b, r <> POST b) -> status (handle r w).1 <> 201.
Proof.
  intros Hr H201.
  destruct (handle_status r w) as [H|[[_ [b Hb]]|[[H|[H|H]] _]]];
    [congruence | by apply (Hr b) | congruence..].
Qed.

Global Instance stays_connected_refl : Reflexive stays_connected.
Proof. intros w Hw. exact Hw. Qed.

Global Instance stays_connected_trans : Transitive stays_connected.
Proof. intros w1 w2 w3 H1 H2 Hw. by apply H2, H1. Qed.



End RunFacts.

(** X19: the invariant of the data model is an invariant of the service.
    If the stored contacts have unique ids, none above the counter, then
    so they have after any list of requests, whatever fails on the way; and
    no id returned in a 201 response on the way is the id of a contact that
    was stored at the start. *)
Theorem invariant_kept (rs : list Request) (w : World) :
  consistent w ->
  consistent (serve rs w).2 /\
  (forall n, Some (VNum n) ∈ created (serve rs w).1 ->
             n ∉ ids (stored w "contacts")).
Proof.
  intros Hw. split; [by apply serve_consistent|].
  intros n Hn Hin.
  destruct (serve_created rs w) as (ns & Hns & _ & Hbound).
  destruct Hw as (_ & k & Hk & Hle). rewrite Hk in Hbound.
  rewrite Hns in Hn. apply list_elem_of_fmap in Hn as (m & [= ->] & Hm).
  rewrite Forall_forall in Hbound, Hle.
  specialize (Hbound _ Hm). specialize (Hle _ Hin). simpl in *. lia.
Qed.

Lemma invariant_kept_witness :
  consistent
    (serve [POST (Some (VObj ada)); PUT "1" (Some (VObj ada_and_more));
            DELETE "1"; POST (Some (VObj ada))] fresh).2.
Proof.
  apply (invariant_kept _ fresh).
  split; [apply NoDup_nil_2|]. exists 0. split; [reflexivity | constructor].
Defined.

Lemma delete_is_final_witness :
  (delete_one "2"
     (serve [POST (Some (VObj ada)); PUT "2" (Some (VObj ada)); GET_all]
        (delete_one "2" three_contacts).2).2).1
  = json 404 (error_body "Contact not found").
Proof.
  apply (delete_is_final "2" 2 _ three_contacts).
  - split; [by eexists | reflexivity].
  - split.
    + unfold unique_ids. vm_compute.
      repeat (apply NoDup_cons; split;
              [intros Hin;
               repeat (apply elem_of_cons in Hin as [Heq|Hin]; [discriminate|]);
               by apply elem_of_nil in Hin|]).
      apply NoDup_nil_2.
    + exists 3. split; [reflexivity|]. vm_compute.
      repeat (constructor; [discriminate|]). constructor.
  - reflexivity.
  - reflexivity.
Defined.

(** X21: contacts are created by POST only, and only POST moves the
    counter.  In every state of the world, a GET, a PUT or a DELETE leaves
    the counters untouched, and the ids stored afterwards are among those
    stored before, in the same order; none of them answers 201. *)
Theorem only_post_creates (r : Request) (w : World) :
  (forall b, r <> POST b) ->
  stored (handle r w).2 "counters" = stored w "counters" /\
  ids (stored (handle r w).2 "contacts") `sublist_of` ids (stored w "contacts") /\
  status (handle r w).1 <> 201.
Proof.
  intros Hr. split; [|split; [|by apply only_post_201]].
  - destruct (handle_sequence r w) as [[Hc _]|(k & _ & _ & _)]; [done|].
    destruct r as [|id|b|id b|id]; cbn [handle].
    + apply stored_db, get_all_db.
    + apply stored_db, get_one_db.
    + by destruct (Hr b).
    + apply (put_effect id b w).
    + apply (delete_effect id w).
  - destruct r as [|id|b|id b|id]; cbn [handle].
    + by rewrite (stored_db _ _ _ (get_all_db w)).
    + by rewrite (stored_db _ _ _ (get_one_db id w)).
    + by destruct (Hr b).
    + destruct (put_effect id b w) as [_ Hkept].
      by rewrite (ids_kept _ _ _ Hkept).
    + destruct (delete_effect id w) as [_ Hsub]. by apply ids_sublist.
Qed.

Lemma only_post_creates_witness :
  ids (stored (handle (DELETE "2") three_contacts).2 "contacts")
    `sublist_of` ids (stored three_contacts "contacts").
Proof.
  apply (only_post_creates (DELETE "2") three_contacts). discriminate.
Defined.

(** * Beyond the specified behaviour: sequences and start-up *)

Section NamedSequences.

Implicit Types (c : collection) (name : string).

Lemma matches_name_insert_seq name (x : doc) v :
  Mongo.matches (Mongo.StrIs "_id" name) (<["seq" := v]> x)
  = Mongo.matches (Mongo.StrIs "_id" name) x.
Proof. unfold Mongo.matches. by rewrite lookup_insert_ne. Qed.

Lemma matches_other_name name name' (x : doc) :
  name' <> name ->
  Mongo.matches (Mongo.StrIs "_id" name) x = true ->
  Mongo.matches (Mongo.StrIs "_id" name') x = false.
Proof.
  intros Hne. unfold Mongo.matches.
  destruct (x !! "_id") as [[]|]; try done.
  intros ->%String.eqb_eq. by apply String.eqb_neq.
Qed.

Lemma find_update_first_other f f' (g : doc -> doc) c :
  (forall x, Mongo.matches f x = true ->
             Mongo.matches f' x = false /\ Mongo.matches f' (g x) = false) ->
  List.find (Mongo.matches f') (Mongo.update_first f g c)
  = List.find (Mongo.matches f') c.
Proof.
  intros Hg. induction c as [|x c IH]; [done|]. simpl.
  destruct (Mongo.matches f x) eqn:Hx; simpl.
  - destruct (Hg x Hx) as [-> ->]. done.
  - by rewrite IH.
Qed.

Lemma find_snoc_other f' c (x : doc) :
  Mongo.matches f' x = false ->
  List.find (Mongo.matches f') (c ++ [x])%list = List.find (Mongo.matches f') c.
Proof.
  intros Hx. induction c as [|y c IH]; simpl; [by rewrite Hx|].
  by destruct (Mongo.matches f' y).
Qed.

(** One increment of the counter called [name]. *)
Lemma find_inc_named name c :
  match Mongo.find_inc (Mongo.StrIs "_id" name) "seq" 1 c with
  | Ok (new, c') =>
      exists k, sequence_named name c = Some k /\
                new !! "seq" = Some (VNum (k + 1)) /\
                sequence_named name c' = Some (k + 1) /\
                forall name', name' <> name ->
                  sequence_named name' c' = sequence_named name' c
  | Throw _ => sequence_named name c = None
  end.
Proof.
  unfold Mongo.find_inc, sequence_named.
  destruct (List.find _ c) as [old|] eqn:Hfind.
  - assert (Hold : Mongo.matches (Mongo.StrIs "_id" name) old = true).
    { by apply find_some in Hfind as [_ ?]. }
    assert (Hother : forall v name', name' <> name ->
      List.find (Mongo.matches (Mongo.StrIs "_id" name'))
        (Mongo.update_first (Mongo.StrIs "_id" name)
           (fun _ => <["seq" := v]> old) c)
      = List.find (Mongo.matches (Mongo.StrIs "_id" name')) c).
    { intros v name' Hne. apply find_update_first_other. intros x Hx.
      rewrite matches_name_insert_seq.
      split; by apply (matches_other_name name). }
    unfold Mongo.inc_field.
    destruct (old !! "seq") as [[]|] eqn:Hseq; try done.
    + exists n. split; [done|]. split; [by rewrite lookup_insert_eq|].
      rewrite (find_update_first _ (fun _ => <["seq" := VNum (n + 1)]> old) c old)
        by (by rewrite ?matches_name_insert_seq).
      rewrite lookup_insert_eq. split; [done|].
      intros name' Hne. by rewrite Hother.
    + exists 0. split; [done|]. split; [by rewrite lookup_insert_eq|].
      rewrite (find_update_first _ (fun _ => <["seq" := VNum 1]> old) c old)
        by (by rewrite ?matches_name_insert_seq).
      rewrite lookup_insert_eq. split; [done|].
      intros name' Hne. by rewrite Hother.
  - cbn [Mongo.seed]. unfold Mongo.inc_field.
    rewrite lookup_singleton_ne by done.
    assert (Hnew : Mongo.matches (Mongo.StrIs "_id" name)
                     (<["seq" := VNum 1]> {[ "_id" := VStr name ]}) = true).
    { rewrite matches_name_insert_seq. unfold Mongo.matches.
      rewrite lookup_singleton_eq. apply String.eqb_refl. }
    exists 0. split; [done|]. split; [by rewrite lookup_insert_eq|].
    rewrite find_snoc by done. rewrite Hnew, lookup_insert_eq.
    split; [done|]. intros name' Hne.
    rewrite find_snoc_other; [done|]. by apply (matches_other_name name).
Qed.

End NamedSequences.

(** X22: [getNextSequence] keeps one counter per name.  On a healthy world
    where the counter called [name] stands at [k] (at 0 when it has no
    document yet, which is then created), it returns [k + 1] and leaves
    that counter at [k + 1]; the counter of every other name and the
    contacts are as they were, and the world stays healthy. *)
Theorem next_sequence_named (name : string) (k : Z) (w : World) :
  healthy w ->
  sequence_named name (stored w "counters") = Some k ->
  (getNextSequence name w).1 = Ok (Some (VNum (k + 1))) /\
  sequence_named name (stored (getNextSequence name w).2 "counters")
    = Some (k + 1) /\
  (forall name', name' <> name ->
     sequence_named name' (stored (getNextSequence name w).2 "counters")
     = sequence_named name' (stored w "counters")) /\
  stored (getNextSequence name w).2 "contacts" = stored w "contacts" /\
  healthy (getNextSequence name w).2.
Proof.
  intros [[d Hd] Hf] Hk. rewrite (stored_Some _ _ _ Hd) in *.
  unfold getNextSequence, bind.
  rewrite (getDb_connected w d Hd). unfold Mongo.findOneAndUpdate_inc.
  rewrite (call_healthy _ w d Hd Hf).
  pose proof (find_inc_named name (coll d "counters")) as Hinc.
  destruct (Mongo.find_inc _ _ _ _) as [[new c']|msg]; [|congruence].
  destruct Hinc as (k' & Hk1 & Hnew & Hk2 & Hother).
  assert (k' = k) as -> by congruence.
  unfold ret. cbn [fst snd]. unfold stored. cbn [db]. rewrite ?Hd.
  rewrite coll_insert_eq, coll_insert_ne by done.
  rewrite Hnew. repeat (split; [done|]). apply healthy_mk.
Qed.

Lemma next_sequence_named_witness :
  (getNextSequence "orders" with_twelve).1 = Ok (Some (VNum 1)) /\
  sequence_named "contacts"
    (stored (getNextSequence "orders" with_twelve).2 "counters") = Some 12.
Proof.
  destruct (next_sequence_named "orders" 0 with_twelve) as (Hr & _ & Hother & _).
  - split; [by eexists | reflexivity].
  - reflexivity.
  - split; [exact Hr|]. by rewrite (Hother "contacts").
Defined.



(** The three ways start-up can go: listening, a rejected connection, and
    a connection followed by an [app.listen] that throws. *)
Example start_up_sample :
  start ∅ None (mkWorld None [] 0) = Listening fresh /\
  start ∅ None (mkWorld None [Some "ECONNREFUSED"] 0) = Exited 1 /\
  start ∅ (Some "ERR_SOCKET_BAD_PORT") (mkWorld None [] 0) = Exited 1.
Proof. repeat split. Qed.

(** * Beyond the specified behaviour: what a 201 means *)

Section Created.

Lemma call_oid {A} (op : Database -> N -> outcome A * Database * N) w r w' :
  (forall d o, (op d o).2 = o) ->
  Mongo.call op w = (r, w') -> next_oid w' = next_oid w.
Proof.
  intros Hop. unfold Mongo.call.
  destruct (faults w) as [|[msg|] fs], (db w) as [d|];
    try (by intros [= _ <-]);
    specialize (Hop d (next_oid w));
    destruct (op d (next_oid w)) as [[r0 d'] o']; cbn [snd] in Hop;
    intros [= _ <-]; done.
Qed.

Lemma getNextSequence_oid name w r w' :
  getNextSequence name w = (r, w') -> next_oid w' = next_oid w.
Proof.
  unfold getNextSequence, bind. intros H.
  destruct (getDb w) as [[[]|msg] w1] eqn:Hg; apply getDb_inv in Hg as ->;
    [|by injection H as _ <-].
  destruct (Mongo.findOneAndUpdate_inc _ _ _ _ w) as [[x|msg] w2] eqn:Hc;
    injection H as _ <-;
    unfold Mongo.findOneAndUpdate_inc in Hc;
    (apply call_oid in Hc; [done|]); intros d o;
    by destruct (Mongo.find_inc _ _ _ _) as [[new c']|msg'].
Qed.

Lemma post_201 b w :
  status (post b w).1 = 201 ->
  exists v k,
    b = Some v /\ complete v = true /\ last_sequence w = Some k /\
    (post b w).1 = json 201 (VObj {[ "id" := VNum (k + 1) ]}) /\
    stored (post b w).2 "contacts"
      = (stored w "contacts" ++ [new_contact (next_oid w) (k + 1) v])%list /\
    last_sequence (post b w).2 = Some (k + 1).
Proof.
  destruct (post b w) as [resp w'] eqn:E. cbn [fst snd]. intros H201.
  unfold post in E. apply try_catch_inv in E as [E|(msg & _ & ->)];
    [|discriminate].
  destruct b as [v|]; [|discriminate].
  assert (v = VNull \/ v <> VNull) as [->|Hv]
    by (destruct v; (by left) || (by right)); [discriminate|].
  rewrite (post_body_test v Hv) in E.
  destruct (complete v) eqn:Hc; cycle 1.
  { apply ret_Ok in E as [-> _]. discriminate. }
  apply bind_Ok in E as (seq & w1 & Hseq & E). cbv zeta in E.
  pose proof (getNextSequence_oid _ _ _ _ Hseq) as Hoid.
  apply getNextSequence_spec in Hseq as (Hcontacts & k & Hk & -> & Hk').
  apply bind_Ok in E as ([] & w2 & Hg & E). apply getDb_Ok in Hg as [-> _].
  apply bind_Ok in E as ([] & w3 & Hins & E). apply ret_Ok in E as [-> ->].
  unfold Mongo.insertOne in Hins.
  apply call_inv in Hins as [[_ [msg [=]]]|(d & d' & o' & Hd & Hop & Hd')].
  rewrite (contact_data_no_oid (k + 1) v Hc) in Hop.
  injection Hop as <- _.
  exists v, k. repeat (split; [done|]). split.
  - rewrite (stored_Some _ _ _ Hd'), coll_insert_eq.
    rewrite <- Hcontacts, (stored_Some _ _ _ Hd), Hoid. reflexivity.
  - unfold last_sequence in *.
    rewrite (stored_Some _ _ _ Hd'), coll_insert_ne by done.
    by rewrite <- (stored_Some _ _ _ Hd).
Qed.

End Created.

(** X24: a 201 from POST /contacts always means a stored contact, in every
    state of the world, driver calls that fail included.  The body passed
    the check of the five fields; the response is [{id: k + 1}] for the
    value [k] the counter stood at; and exactly one document has been
    appended to the contacts, made of that id, a fresh ObjectId and the
    body's five fields. *)
Theorem created_is_stored (b : jsval) (w : World) :
  status (post b w).1 = 201 ->
  exists v k,
    b = Some v /\ complete v = true /\ last_sequence w = Some k /\
    (post b w).1 = json 201 (VObj {[ "id" := VNum (k + 1) ]}) /\
    stored (post b w).2 "contacts"
      = (stored w "contacts" ++ [new_contact (next_oid w) (k + 1) v])%list /\
    contact_id (new_contact (next_oid w) (k + 1) v) = Some (k + 1).
Proof.
  intros H201.
  destruct (post_201 b w H201) as (v & k & Hb & Hc & Hk & Hr & Hs & _).
  exists v, k. repeat (split; [done|]).
  unfold contact_id, new_contact.
  by rewrite lookup_insert_ne, object_cons_Some, lookup_insert_eq.
Qed.

Lemma created_is_stored_witness :
  stored (post (Some (VObj ada))
            (mkWorld (db with_twelve) [None; None] 1)).2 "contacts"
  = [twelve; new_contact 1 13 (VObj ada)].
Proof.
  destruct (created_is_stored (Some (VObj ada))
              (mkWorld (db with_twelve) [None; None] 1) eq_refl)
    as (v & k & Hb & _ & Hk & _ & Hs & _).
  injection Hb as <-. vm_compute in Hk. injection Hk as <-.
  rewrite Hs. reflexivity.
Defined.

(** * The sequence of ids: specified behaviour *)

Section Increasing.

(** A driver call uses up exactly one entry of the script of outcomes. *)
Lemma call_faults {A} (op : Database -> N -> outcome A * Database * N) w r w' :
  Mongo.call op w = (r, w') -> faults w' = tail (faults w).
Proof.
  unfold Mongo.call.
  destruct (faults w) as [|[msg|] fs], (db w) as [d|];
    try (by intros [= _ <-]);
    destruct (op d (next_oid w)) as [[r0 d'] o']; by intros [= _ <-].
Qed.

(** [getNextSequence] on a connected world is one call to the driver. *)
Lemma getNextSequence_faults name w :
  connected w -> faults (getNextSequence name w).2 = tail (faults w).
Proof.
  intros [d Hd]. unfold getNextSequence, bind.
  rewrite (getDb_connected w d Hd).
  destruct (Mongo.findOneAndUpdate_inc _ _ _ _ w) as [[x|msg] w2] eqn:Hc;
    unfold Mongo.findOneAndUpdate_inc in Hc; by apply call_faults in Hc.
Qed.

Lemma post_healthy_sequence (b : value) w k :
  healthy w -> last_sequence w = Some k -> complete b = true ->
  (handle (POST (Some b)) w).1 = json 201 (VObj {[ "id" := VNum (k + 1) ]}) /\
  healthy (handle (POST (Some b)) w).2 /\
  last_sequence (handle (POST (Some b)) w).2 = Some (k + 1).
Proof.
  intros Hw Hk Hb. cbn [handle].
  destruct (post_healthy b w k Hw Hk Hb) as (w' & Hpost & Hw').
  assert (status (post (Some b) w).1 = 201) as H201 by by rewrite Hpost.
  destruct (post_201 _ _ H201) as (_ & k' & _ & _ & Hk' & _ & _ & Hseq).
  assert (k' = k) as -> by congruence.
  rewrite Hpost in *. done.
Qed.

Lemma serve_posts (bs : list value) : forall k w,
  healthy w -> last_sequence w = Some k ->
  Forall (fun b => complete b = true) bs ->
  (serve ((fun b => POST (Some b)) <$> bs) w).1 =
    (fun n => json 201 (VObj {[ "id" := VNum n ]}))
      <$> seqZ (k + 1) (Z.of_nat (List.length bs)).
Proof.
  induction bs as [|b bs IH]; intros k w Hw Hk Hbs; [done|].
  apply Forall_cons in Hbs as [Hb Hbs].
  destruct (post_healthy_sequence b w k Hw Hk Hb) as (Hresp & Hw' & Hk').
  rewrite fmap_cons, serve_cons. cbn [fst].
  rewrite Hresp, (IH (k + 1) _ Hw' Hk' Hbs).
  cbn [List.length]. rewrite Nat2Z.inj_succ.
  rewrite (seqZ_cons (k + 1) (Z.succ _)) by lia.
  rewrite fmap_cons, Z.pred_succ. done.
Qed.

End Increasing.

(** C2: the ids handed out by POST /contacts.  On a healthy world whose
    counter stands at [k], POST requests whose five required fields all
    pass the check are answered, in the order of the requests, with 201 and
    the ids [k + 1], [k + 2], ...: integers, each one more than the one
    before.  Among any requests at all, served from any world, the ids of
    the 201 responses are integers in strictly increasing order, and a 201
    carries the counter's value plus one and leaves the counter there.  The
    id comes from one find-and-increment of the counters document with [_id]
    [contacts]: on a connected world [getNextSequence] makes exactly one
    call to the driver, so nothing can come between its finding and its
    incrementing; when it returns, it returns what that call left in the
    counter, one more than before; when it throws, the counters are as they
    were. *)
Theorem created_ids_increase (bs : list value) (k : Z) (w : World) :
  healthy w ->
  last_sequence w = Some k ->
  Forall (fun b => complete b = true) bs ->
  (serve ((fun b => POST (Some b)) <$> bs) w).1 =
    (fun n => json 201 (VObj {[ "id" := VNum n ]}))
      <$> seqZ (k + 1) (Z.of_nat (List.length bs)) /\
  (forall rs w0, exists ns : list Z,
     created (serve rs w0).1 = (fun n => Some (VNum n)) <$> ns /\
     StronglySorted Z.lt ns) /\
  (forall b w0, status (post b w0).1 = 201 ->
     exists k0, last_sequence w0 = Some k0 /\
                (post b w0).1 = json 201 (VObj {[ "id" := VNum (k0 + 1) ]}) /\
                last_sequence (post b w0).2 = Some (k0 + 1)) /\
  (forall w0, connected w0 ->
     faults (getNextSequence "contacts" w0).2 = tail (faults w0) /\
     match (getNextSequence "contacts" w0).1 with
     | Ok id =>
         exists k0, last_sequence w0 = Some k0 /\ id = Some (VNum (k0 + 1)) /\
                    last_sequence (getNextSequence "contacts" w0).2
                      = Some (k0 + 1)
     | Throw _ =>
         stored (getNextSequence "contacts" w0).2 "counters"
           = stored w0 "counters"
     end).
Proof.
  intros Hw Hk Hbs. split; [by apply serve_posts|]. split; [|split].
  - intros rs w0. destruct (serve_created rs w0) as (ns & Hns & Hsorted & _).
    by exists ns.
  - intros b w0 H201.
    destruct (post_201 b w0 H201) as (_ & k0 & _ & _ & Hk0 & Hr & _ & Hs).
    by exists k0.
  - intros w0 Hc. split; [by apply getNextSequence_faults|].
    destruct (getNextSequence "contacts" w0) as [r w1] eqn:E.
    by apply getNextSequence_spec in E as [_ H].
Qed.

Lemma created_ids_increase_witness :
  (serve [POST (Some (VObj ada)); POST (Some (VObj ada));
          POST (Some (VObj ada))] with_twelve).1
  = [json 201 (VObj {[ "id" := VNum 13 ]});
     json 201 (VObj {[ "id" := VNum 14 ]});
     json 201 (VObj {[ "id" := VNum 15 ]})].
Proof.
  destruct (created_ids_increase [VObj ada; VObj ada; VObj ada] 12 with_twelve)
    as [H _].
  - apply healthy_mk.
  - reflexivity.
  - repeat constructor.
  - exact H.
Defined.

(** One find-and-increment is one driver call: of two outcomes scripted
    for the driver, [getNextSequence] uses the first and leaves the
    second; and when that one call is rejected, the counter stays. *)
Example one_call_sample :
  faults (getNextSequence "contacts"
            (mkWorld (db with_twelve) [None; Some "timeout"] 1)).2
    = [Some "timeout"] /\
  (getNextSequence "contacts"
     (mkWorld (db with_twelve) [None; Some "timeout"] 1)).1
    = Ok (Some (VNum 13)) /\
  getNextSequence "contacts"
    (mkWorld (db with_twelve) [Some "timeout"; None] 1)
    = (Throw "timeout", mkWorld (db with_twelve) [None] 1).
Proof. repeat split. Qed.

(** * Errors and the application around the router *)

Section Application.

Lemma app_parsed unparsed i r w :
  parsed unparsed i = Some r ->
  app unparsed i w =
    (mkReply (status (handle r w).1) (JsonBody (body (handle r w).1)),
     (handle r w).2).
Proof. unfold app. intros ->. by destruct (handle r w). Qed.

End Application.

(** C8, as stated, fails: a request whose JSON body [express.json()]
    refuses, or whose path parameter does not decode, is answered before it
    reaches a handler, with status 400 and an HTML page in place of
    [{error: msg}]; the database is not touched. *)
Lemma refused_body_counterexample :
  app (Some (VObj ∅)) (mkIncoming POST_contacts Refused) fresh
    = (mkReply 400 HtmlPage, fresh) /\
  app None (mkIncoming (PUT_contact (Some "12")) Refused) with_twelve
    = (mkReply 400 HtmlPage, with_twelve) /\
  app None (mkIncoming (GET_contact None) NoJson) with_twelve
    = (mkReply 400 HtmlPage, with_twelve).
Proof. repeat split. Qed.

(** C8, amended: for every request to one of the five endpoints that
    reaches its handler, as [r], in every state of the world, the reply is
    JSON; its status is 200 or 201, or else it is 400, 404 or 500 and the
    body is [{error: msg}] for a string [msg]; and whenever the handler's
    [try] block throws, database errors included, the reply is 500 with
    the thrown message in [{error: msg}]. *)
Theorem handled_errors_are_json
    (unparsed : jsval) (i : Incoming) (r : Request) (w : World) :
  parsed unparsed i = Some r ->
  (exists v, reply_body (app unparsed i w).1 = JsonBody v) /\
  (reply_status (app unparsed i w).1 = 200 \/
   reply_status (app unparsed i w).1 = 201 \/
   ((reply_status (app unparsed i w).1 = 400 \/
     reply_status (app unparsed i w).1 = 404 \/
     reply_status (app unparsed i w).1 = 500) /\
    exists msg,
      reply_body (app unparsed i w).1 = JsonBody (error_body msg))) /\
  (forall msg w', handler_body r w = (Throw msg, w') ->
     app unparsed i w = (mkReply 500 (JsonBody (error_body msg)), w')).
Proof.
  intros Hr. rewrite (app_parsed _ _ _ _ Hr). cbn [fst reply_status reply_body].
  destruct (errors_are_json r w) as [Hstatus Hthrow].
  split; [by eexists|]. split.
  - destruct Hstatus as [H|[H|[H [msg Hmsg]]]]; auto.
    right. right. split; [done|]. exists msg. by rewrite Hmsg.
  - intros msg w' H. by rewrite (Hthrow msg w' H).
Qed.

Lemma handled_errors_are_json_witness :
  app None (mkIncoming (DELETE_contact (Some "12")) NoJson)
      (mkWorld (db with_twelve) [Some "connection reset"] 1)
    = (mkReply 500 (JsonBody (error_body "connection reset")), with_twelve).
Proof.
  destruct (handled_errors_are_json None
              (mkIncoming (DELETE_contact (Some "12")) NoJson) (DELETE "12")
              (mkWorld (db with_twelve) [Some "connection reset"] 1))
    as (_ & _ & H).
  - reflexivity.
  - apply H. reflexivity.
Defined.

(** Replies of the application on the database holding contact 12: a body
    with fields missing, an id that is no number, a contact that is not
    there, and a body that is not JSON. *)
Example app_sample :
  (app None (mkIncoming POST_contacts (JsonObject ∅)) with_twelve).1
    = mkReply 400 (JsonBody (error_body "All fields are required")) /\
  (app None (mkIncoming (GET_contact (Some "abc")) NoJson) with_twelve).1
    = mkReply 400 (JsonBody (error_body "Invalid ID")) /\
  (app None (mkIncoming (DELETE_contact (Some "7")) NoJson) with_twelve).1
    = mkReply 404 (JsonBody (error_body "Contact not found")) /\
  (app None (mkIncoming (GET_contact (Some "12")) NoJson) with_twelve).1
    = mkReply 200 (JsonBody (VObj twelve)) /\
  (app None (mkIncoming (GET_contact (Some "12")) Refused) with_twelve).1
    = mkReply 400 HtmlPage.
Proof. repeat split. Qed.
